(** * youtube2mcq: transcript chunking, MCQ parsing and quiz scoring

    A shallow embedding of [app.py].  Python strings are sequences of Unicode
    code points; exceptions are an explicit error result; the Streamlit
    session state is an explicit record threaded through every script run. *)

From Stdlib Require Import PrimFloat.
From Stdlib Require Import List Arith Lia Bool NArith Ascii QArith.
From Stdlib Require String.
From Stdlib Require DecimalString.
Import ListNotations.
Import String.StringSyntax.
Delimit Scope string_scope with string.

(** A decimal literal denotes the nearest double, as it does in Python. *)
Set Warnings "-inexact-float".
Close Scope Q_scope.
Open Scope nat_scope.
Open Scope list_scope.

Set Implicit Arguments.

(** ** Exceptions *)

Inductive exn : Type :=
| KeyError
| IndexError
| StopIteration
| ValueError
| ZeroDivisionError
| LanguageNotSupportedException
| BackendError.

Inductive result (A : Type) : Type :=
| Ok (a : A)
| Raise (e : exn).

Arguments Ok {A} a.
Arguments Raise {A} e.

Definition bind {A B : Type} (m : result A) (k : A -> result B) : result B :=
  match m with
  | Ok a => k a
  | Raise e => Raise e
  end.

Notation "x <- m ;; k" := (bind m (fun x => k))
  (at level 61, m at next level, right associativity).

Definition is_ok {A : Type} (m : result A) : bool :=
  match m with Ok _ => true | Raise _ => false end.

(** ** Python strings *)

Definition char : Type := N.
Definition str : Type := list char.

(** A literal of the source, as a sequence of code points. *)
Definition lit (s : String.string) : str :=
  map N_of_ascii (String.list_ascii_of_string s).

Arguments lit s%_string.

Definition str_eqb (a b : str) : bool :=
  if list_eq_dec N.eq_dec a b then true else false.

(** [str.isspace] on one code point: the characters removed by a bare
    [str.strip()]. *)
Definition is_space (c : char) : bool :=
  ((9 <=? c) && (c <=? 13) || (28 <=? c) && (c <=? 32)
   || (c =? 133) || (c =? 160) || (c =? 5760)
   || (8192 <=? c) && (c <=? 8202)
   || (c =? 8232) || (c =? 8233) || (c =? 8239) || (c =? 8287)
   || (c =? 12288))%N.

Fixpoint lstrip (s : str) : str :=
  match s with
  | [] => []
  | c :: s' => if is_space c then lstrip s' else s
  end.

Definition rstrip (s : str) : str := rev (lstrip (rev s)).

(** [s.strip()] *)
Definition strip (s : str) : str := rstrip (lstrip s).

(** [s.startswith(p)] *)
Fixpoint startswith (p s : str) : bool :=
  match p, s with
  | [], _ => true
  | _ :: _, [] => false
  | a :: p', b :: s' => (a =? b)%N && startswith p' s'
  end.

(** [s.startswith((p1, ..., pn))] *)
Definition startswith_any (ps : list str) (s : str) : bool :=
  existsb (fun p => startswith p s) ps.

Definition cons_head (c : char) (parts : list str) : list str :=
  match parts with
  | [] => [[c]]
  | h :: t => (c :: h) :: t
  end.

(** [s.split(sep)] for a non-empty separator: cut at every leftmost,
    non-overlapping occurrence of [sep].  [skip] counts the characters of an
    occurrence that are still to be passed over. *)
Fixpoint split_go (sep : str) (skip : nat) (s : str) : list str :=
  match s with
  | [] => [[]]
  | c :: s' =>
      match skip with
      | S k => split_go sep k s'
      | O =>
          if startswith sep s
          then [] :: split_go sep (length sep - 1) s'
          else cons_head c (split_go sep 0 s')
      end
  end.

Definition split (sep s : str) : list str := split_go sep 0 s.

(** [sep.join(parts)] *)
Fixpoint join (sep : str) (parts : list str) : str :=
  match parts with
  | [] => []
  | [p] => p
  | p :: rest => p ++ sep ++ join sep rest
  end.

(** [l[i]] for a non-negative index. *)
Definition py_index {A : Type} (l : list A) (i : nat) : result A :=
  match nth_error l i with
  | Some a => Ok a
  | None => Raise IndexError
  end.

(** [s[i:j]] for [0 <= i <= j]. *)
Definition slice (s : str) (i j : nat) : str := firstn (j - i) (skipn i s).

(** ** [parse_mcqs] *)

(** The dictionaries built by the parser hold at most the three keys
    ['question'], ['options'] and ['correct_answer']; [None] is an absent
    key. *)
Record qdict : Type := mk_qdict {
  question : option str;
  options : option (list str);
  correct_answer : option str
}.

Definition empty_dict : qdict := mk_qdict None None None.

(** Truth value of a dictionary: it has some key. *)
Definition dict_truthy (d : qdict) : bool :=
  match question d, options d, correct_answer d with
  | None, None, None => false
  | _, _, _ => true
  end.

Definition option_markers : list str := [lit "A)"; lit "B)"; lit "C)"; lit "D)"].

(** The loop state: the list [questions] and the dictionary bound to
    [current_question].  An appended dictionary is never written again,
    because [current_question] is rebound to a fresh dictionary right after
    the append. *)
Definition pstate : Type := (list qdict * qdict)%type.

(** One iteration of the loop body on the raw (untrimmed) line. *)
Definition parse_line (st : pstate) (raw : str) : result pstate :=
  let '(questions, current_question) := st in
  let line := strip raw in
  if startswith (lit "Q:") line then
    let questions' :=
      if dict_truthy current_question
      then questions ++ [current_question] else questions in
    Ok (questions',
        mk_qdict (Some (strip (skipn 2 line))) (Some []) None)
  else if startswith_any option_markers line then
    match options current_question with
    | Some opts =>
        Ok (questions,
            mk_qdict (question current_question) (Some (opts ++ [line]))
                     (correct_answer current_question))
    | None => Raise KeyError
    end
  else if startswith (lit "Correct Answer:") line then
    label <- py_index (split (lit ":") line) 1 ;;
    Ok (questions,
        mk_qdict (question current_question) (options current_question)
                 (Some (strip label)))
  else Ok st.

Fixpoint parse_loop (st : pstate) (lines : list str) : result pstate :=
  match lines with
  | [] => Ok st
  | l :: rest => st' <- parse_line st l ;; parse_loop st' rest
  end.

Definition newline : str := [10%N].

(** The lines the loop iterates over: [mcqs_text.split('\n')]. *)
Definition lines_of (mcqs_text : str) : list str := split newline mcqs_text.

(** [questions = []] and [current_question = {}]. *)
Definition initial : pstate := ([], empty_dict).

(** The statement after the loop. *)
Definition finish (st : pstate) : list qdict :=
  let '(questions, current_question) := st in
  if dict_truthy current_question
  then questions ++ [current_question] else questions.

Definition parse_mcqs (mcqs_text : str) : result (list qdict) :=
  st <- parse_loop initial (lines_of mcqs_text) ;;
  Ok (finish st).

(** ** [translate_text] *)

(** [range(start, stop, step)] as a list; a zero step is refused. *)
Definition py_range (start stop step : nat) : result (list nat) :=
  if step =? 0 then Raise ValueError
  else
    let len := if start <? stop then (stop - start - 1) / step + 1 else 0 in
    Ok (map (fun k => start + k * step) (seq 0 len)).

(** The list comprehension [[text[i:i+chunk_size] for i in range(...)]]. *)
Definition split_chunks (chunk_size : nat) (text : str) : result (list str) :=
  idx <- py_range 0 (length text) chunk_size ;;
  Ok (map (fun i => slice text i (i + chunk_size)) idx).

Section Translate.

(** The constructor [GoogleTranslator(source='auto', target=dest_language)]:
    it sends nothing to the translation service, and it raises for a target
    that the library does not support. *)
Variable GoogleTranslator : str -> result unit.

(** The translation collaborator behind [translator.translate]: its reply
    may depend on the target language and on the requests already made,
    and it may fail. *)
Variable backend : str -> list str -> str -> result str.

Variable dest_language : str.

(** [[translator.translate(chunk) for chunk in chunks]], with the log of
    the requests sent so far. *)
Fixpoint translate_all (log : list str) (chunks : list str)
  : list str * result (list str) :=
  match chunks with
  | [] => (log, Ok [])
  | chunk :: rest =>
      match backend dest_language log chunk with
      | Raise e => (log ++ [chunk], Raise e)
      | Ok t =>
          let '(log', r) := translate_all (log ++ [chunk]) rest in
          (log', ts <- r ;; Ok (t :: ts))
      end
  end.

Definition chunk_size : nat := 500.

(** The requests made to the collaborator, and the value returned.  The
    translator is built first: when that fails, the text is not cut and no
    request is made. *)
Definition translate_text (text : str) : list str * result str :=
  match GoogleTranslator dest_language with
  | Raise e => ([], Raise e)
  | Ok _ =>
      match split_chunks chunk_size text with
      | Raise e => ([], Raise e)
      | Ok chunks =>
          let '(log, r) := translate_all [] chunks in
          (log, translated_chunks <- r ;; Ok (join (lit " ") translated_chunks))
      end
  end.

End Translate.

(** ** Session state and [display_mcqs] *)

(** The values stored in [st.session_state['answers']]: the initial [''],
    or what [st.radio] returns ([None] or the chosen option). *)
Inductive pyval : Type :=
| PyNone
| PyStr (s : str).

Definition truthy (v : pyval) : bool :=
  match v with
  | PyNone => false
  | PyStr [] => false
  | PyStr (_ :: _) => true
  end.

(** [selected_option == correct_answer] where the right side is a string. *)
Definition pyval_eqb (v : pyval) (s : str) : bool :=
  match v with
  | PyNone => false
  | PyStr t => str_eqb t s
  end.

(** The keys of [st.session_state] used by the quiz; [None] for ['answers']
    is an absent key, [None] for ['questions'] is the initial [None]. *)
Record session_state : Type := mk_session {
  questions : option (list qdict);
  answers : option (list pyval);
  submitted : bool
}.

(** The widget values of one script run: the option index picked in the radio
    group of each question (if any) and the two buttons. *)
Record widgets : Type := mk_widgets {
  radio : nat -> option nat;
  submit_button : bool;
  start_again : bool
}.

Definition get_key {A : Type} (o : option A) : result A :=
  match o with
  | Some a => Ok a
  | None => Raise KeyError
  end.

(** [l[i] = v] *)
Definition set_item {A : Type} (l : list A) (i : nat) (v : A) : result (list A) :=
  if i <? length l then Ok (firstn i l ++ v :: skipn (S i) l)
  else Raise IndexError.

Fixpoint map_result {A B : Type} (f : A -> result B) (l : list A)
  : result (list B) :=
  match l with
  | [] => Ok []
  | a :: rest =>
      b <- f a ;;
      bs <- map_result f rest ;;
      Ok (b :: bs)
  end.

(** [opt.split(') ')[1]] *)
Definition display_text (opt : str) : result str :=
  py_index (split (lit ") ") opt) 1.

(** [st.radio(..., options, index=None)] *)
Definition radio_value (shown : list str) (choice : option nat) : pyval :=
  match choice with
  | None => PyNone
  | Some k =>
      match nth_error shown k with
      | Some o => PyStr o
      | None => PyNone
      end
  end.

(** The first loop of [display_mcqs], from question number [i] on. *)
Fixpoint collect_answers (pick : nat -> option nat) (i : nat)
    (qs : list qdict) (ans : option (list pyval))
  : result (option (list pyval)) :=
  match qs with
  | [] => Ok ans
  | q :: rest =>
      _ <- get_key (question q) ;;
      opts <- get_key (options q) ;;
      shown <- map_result display_text opts ;;
      let answer := radio_value shown (pick i) in
      a <- get_key ans ;;
      a' <- set_item a i answer ;;
      collect_answers pick (S i) rest (Some a')
  end.

Inductive outcome : Type :=
| Correct
| Incorrect (correct : str)
| Unanswered
| LabelError.

(** The body of the scoring loop for question number [i]. *)
Definition grade (ans : option (list pyval)) (i : nat) (q : qdict)
  : result outcome :=
  _ <- get_key (question q) ;;
  correct_option <- get_key (correct_answer q) ;;
  a <- get_key ans ;;
  selected_option <- py_index a i ;;
  opts <- get_key (options q) ;;
  match find (startswith correct_option) opts with
  | None => Ok LabelError
  | Some opt =>
      correct <- display_text opt ;;
      if truthy selected_option then
        if pyval_eqb selected_option correct then Ok Correct
        else Ok (Incorrect correct)
      else Ok Unanswered
  end.

Definition is_correct (o : outcome) : bool :=
  match o with Correct => true | _ => false end.

Fixpoint score_loop (ans : option (list pyval)) (i : nat) (qs : list qdict)
  : result (list outcome) :=
  match qs with
  | [] => Ok []
  | q :: rest =>
      o <- grade ans i q ;;
      os <- score_loop ans (S i) rest ;;
      Ok (o :: os)
  end.

Inductive verdict : Type := GreatJob | GoodEffort | WatchAgain.

(** What the scoring block shows.  [score_double] is the value of the
    variable [score_percentage] of the source, an IEEE 754 double;
    [score_percentage] is the exact number [correct_count / total_questions
    * 100] that this double approximates (the division and the product are
    each rounded). *)
Record report : Type := mk_report {
  outcomes : list outcome;
  correct_count : nat;
  total_questions : nat;
  score_percentage : Q;
  score_double : float;
  message : verdict
}.

(** [(correct_count / total_questions) * 100], as an exact rational. *)
Definition percentage (count total : nat) : result Q :=
  if total =? 0 then Raise ZeroDivisionError
  else Ok ((inject_Z (Z.of_nat count) / inject_Z (Z.of_nat total)) * 100)%Q.

(** The double that holds a natural number below [2^53]: every partial sum
    is an integer that a double holds exactly. *)
Fixpoint float_of_nat (n : nat) : float :=
  match n with
  | O => 0%float
  | S k => (float_of_nat k + 1)%float
  end.

(** [(correct_count / total_questions) * 100], as Python computes it: the
    true division of two integers below [2^53] is the correctly rounded
    quotient of the two doubles, and the product with [100] is rounded
    again. *)
Definition percentage_double (count total : nat) : result float :=
  if total =? 0 then Raise ZeroDivisionError
  else Ok (float_of_nat count / float_of_nat total * 100)%float.

(** The chain [if score_percentage >= 80: ... elif score_percentage >= 60:
    ... else: ...], on the double. *)
Definition verdict_of (p : float) : verdict :=
  if (80 <=? p)%float then GreatJob
  else if (60 <=? p)%float then GoodEffort
  else WatchAgain.

(** The block under [if st.session_state['submitted']]. *)
Definition score (qs : list qdict) (ans : option (list pyval)) : result report :=
  os <- score_loop ans 0 qs ;;
  let count := length (filter is_correct os) in
  let total := length qs in
  p <- percentage count total ;;
  d <- percentage_double count total ;;
  Ok (mk_report os count total p d (verdict_of d)).

Definition list_truthy {A : Type} (l : option (list A)) : bool :=
  match l with
  | Some (_ :: _) => true
  | _ => false
  end.

(** The session after [reset_state()] and the re-initialisation at the top
    of the script on the rerun it triggers. *)
Definition reset_state : session_state := mk_session None None false.

(** One run of [display_mcqs]: the new session state and the score report
    shown in this run, if any.  An exception aborts the run. *)
Definition display_mcqs (w : widgets) (st : session_state)
  : result (session_state * option report) :=
  r <- match questions st with
       | Some (q :: rest) =>
           let qs := q :: rest in
           ans <- collect_answers (radio w) 0 qs (answers st) ;;
           let sub := if submit_button w then true else submitted st in
           rep <- (if sub
                   then (rp <- score qs ans ;; Ok (Some rp))
                   else Ok None) ;;
           Ok (mk_session (Some qs) ans sub, rep)
       | _ => Ok (st, None)
       end ;;
  if start_again w then Ok (reset_state, snd r) else Ok r.

(** ** The script around the quiz *)

(** The handler of the "Generate MCQs" button, given the text returned by
    [generate_mcqs]. *)
Definition generate_clicked (mcqs_text : str) (st : session_state)
  : result session_state :=
  qs <- parse_mcqs mcqs_text ;;
  Ok (mk_session (Some qs) (Some (repeat (PyStr []) (length qs))) false).

(** The last two lines of the script. *)
Definition render (w : widgets) (st : session_state)
  : result (session_state * option report) :=
  if list_truthy (questions st) then display_mcqs w st else Ok (st, None).

(** A script run in which "Generate MCQs" was pressed. *)
Definition run_generate (w : widgets) (mcqs_text : str) (st : session_state)
  : result (session_state * option report) :=
  st' <- generate_clicked mcqs_text st ;;
  render w st'.

(** ** The session a run leaves behind *)

(** An exception ends a script run, but what the run had already written to
    [st.session_state] stays for the next run.  The functions below follow
    [display_mcqs] once more and return, with the outcome of the run, the
    session state it leaves in every case. *)

(** The first loop from question number [i] on: the answers as the loop
    leaves them, and the exception that stopped it, if any.  The list under
    ['answers'] is updated in place, one item per question rendered. *)
Fixpoint collect_answers_run (pick : nat -> option nat) (i : nat)
    (qs : list qdict) (ans : option (list pyval))
  : option (list pyval) * option exn :=
  match qs with
  | [] => (ans, None)
  | q :: rest =>
      match (_ <- get_key (question q) ;;
             opts <- get_key (options q) ;;
             shown <- map_result display_text opts ;;
             let answer := radio_value shown (pick i) in
             a <- get_key ans ;;
             set_item a i answer) with
      | Raise e => (ans, Some e)
      | Ok a' => collect_answers_run pick (S i) rest (Some a')
      end
  end.

(** One run of [display_mcqs]: the session state it leaves, and how it
    ended.  An exception in the first loop leaves ['submitted'] as it was;
    an exception in the scoring block comes after ['submitted'] was set. *)
Definition display_mcqs_run (w : widgets) (st : session_state)
  : session_state * result (option report) :=
  match questions st with
  | Some (q :: rest) =>
      let qs := q :: rest in
      match collect_answers_run (radio w) 0 qs (answers st) with
      | (ans, Some e) => (mk_session (Some qs) ans (submitted st), Raise e)
      | (ans, None) =>
          let sub := if submit_button w then true else submitted st in
          match (if sub then (rp <- score qs ans ;; Ok (Some rp))
                 else Ok None) with
          | Raise e => (mk_session (Some qs) ans sub, Raise e)
          | Ok rep =>
              if start_again w then (reset_state, Ok rep)
              else (mk_session (Some qs) ans sub, Ok rep)
          end
      end
  | _ => if start_again w then (reset_state, Ok None) else (st, Ok None)
  end.

(** The last two lines of the script, likewise. *)
Definition render_run (w : widgets) (st : session_state)
  : session_state * result (option report) :=
  if list_truthy (questions st) then display_mcqs_run w st else (st, Ok None).

(** ** Vocabulary of the statements *)

(** An occurrence of [sep] somewhere in [s]. *)
Fixpoint occurs (sep s : str) : bool :=
  match s with
  | [] => startswith sep []
  | _ :: s' => startswith sep s || occurs sep s'
  end.

(** The text of [s] before its first [c], and the text after it. *)
Fixpoint up_to (c : char) (s : str) : str :=
  match s with
  | [] => []
  | x :: s' => if (x =? c)%N then [] else x :: up_to c s'
  end.

Fixpoint after (c : char) (s : str) : str :=
  match s with
  | [] => []
  | x :: s' => if (x =? c)%N then s' else after c s'
  end.

Definition colon : char := 58%N.

Definition has_label (d : qdict) : bool :=
  match correct_answer d with Some _ => true | None => false end.

Definition has_options (d : qdict) : bool :=
  match options d with Some _ => true | None => false end.

(** Every line that begins with an option marker comes after some line that
    begins with ['Q:'] ([seen] tells whether one came before [lines]). *)
Fixpoint markers_follow_question (seen : bool) (lines : list str) : bool :=
  match lines with
  | [] => true
  | raw :: rest =>
      if startswith (lit "Q:") (strip raw)
      then markers_follow_question true rest
      else if startswith_any option_markers (strip raw)
           then seen && markers_follow_question seen rest
           else markers_follow_question seen rest
  end.

(** A line that matches none of the three prefixes is skipped. *)
Definition ignored_line (raw : str) : bool :=
  negb (startswith (lit "Q:") (strip raw))
  && negb (startswith_any option_markers (strip raw))
  && negb (startswith (lit "Correct Answer:") (strip raw)).

(** A question as the prompt of [generate_mcqs] asks for it: a text, option
    lines and the label of the correct option. *)
Record mcq : Type := mk_mcq {
  text : str;
  opts : list str;
  label : str
}.

Definition labels : list str := [lit "A"; lit "B"; lit "C"; lit "D"].

(** A well-formed question: its text and each of its four option lines are
    single lines without surrounding white space, each option line begins
    with one of the four markers, and the label is one of A, B, C, D. *)
Definition well_formed (q : mcq) : Prop :=
  strip (text q) = text q
  /\ ~ In 10%N (text q)
  /\ length (opts q) = 4
  /\ Forall (fun o => strip o = o) (opts q)
  /\ Forall (fun o => ~ In 10%N o) (opts q)
  /\ Forall (fun o => startswith_any option_markers o = true) (opts q)
  /\ In (label q) labels.

(** The lines of one question in the format of the prompt. *)
Definition format_question (q : mcq) : list str :=
  (lit "Q: " ++ text q) :: opts q ++ [lit "Correct Answer: " ++ label q].

Definition format_questions (qs : list mcq) : str :=
  join newline (concat (map format_question qs)).

(** The dictionary expected for a question. *)
Definition to_dict (q : mcq) : qdict :=
  mk_qdict (Some (text q)) (Some (opts q)) (Some (label q)).



Definition sample_options : list str :=
  [lit "A) x"; lit "B) y"; lit "C) z"; lit "D) w"].

Definition no_widgets : widgets := mk_widgets (fun _ => None) false false.

(** The options shown in the radio group of a question. *)
Definition shown_options (q : qdict) : result (list str) :=
  opts <- get_key (options q) ;;
  map_result display_text opts.

Definition shown (q : qdict) : list str :=
  match shown_options q with
  | Ok l => l
  | Raise _ => []
  end.

(** The question can be rendered: it has a text and options, and every
    option has a display text. *)
Definition showable (q : qdict) : bool :=
  match question q with
  | Some _ => is_ok (shown_options q)
  | None => false
  end.

(** The question can also be graded: it has a correct-label. *)
Definition gradable (q : qdict) : bool := showable q && has_label q.

(** The radio values of one run, from question number [i] on. *)
Fixpoint picks (pick : nat -> option nat) (i : nat) (qs : list qdict)
  : list pyval :=
  match qs with
  | [] => []
  | q :: rest => radio_value (shown q) (pick i) :: picks pick (S i) rest
  end.

(** Three formatted questions, used in the examples. *)
Definition sample_text : str :=
  format_questions
    [mk_mcq (lit "one") sample_options (lit "A");
     mk_mcq (lit "two") sample_options (lit "B");
     mk_mcq (lit "three") sample_options (lit "C")].

(** The first option of question 1 and of question 2, nothing for
    question 3. *)
Definition sample_picks (i : nat) : option nat :=
  match i with
  | 0 => Some 0
  | 1 => Some 0
  | _ => None
  end.

Definition sample_question : qdict :=
  mk_qdict (Some (lit "one")) (Some sample_options) (Some (lit "A")).

(** ** [extract_video_id] *)

(** The regular expressions of the two patterns: literals, character
    classes, sequences, greedy options, counted repetitions and capturing
    groups. *)
Inductive regex : Type :=
| REps
| RChar (c : char)
| RClass (ranges : list (char * char))
| RSeq (r1 r2 : regex)
| ROpt (r : regex)
| RRep (n : nat) (r : regex)
| RGroup (r : regex).

Definition in_class (ranges : list (char * char)) (x : char) : bool :=
  existsb (fun rg => (fst rg <=? x)%N && (x <=? snd rg)%N) ranges.

(** One way of matching at the start of a string: the text consumed, the
    text left, and the captured groups in the order of their opening. *)
Definition rmatch1 : Type := (str * str * list str)%type.

(** Continue every match of [ms] with the matches [k] finds in what is
    left, keeping the order of preference. *)
Definition then_ (ms : list rmatch1) (k : str -> list rmatch1) : list rmatch1 :=
  flat_map
    (fun m1 =>
       let '(w1, s1, g1) := m1 in
       map (fun m2 => let '(w2, s2, g2) := m2 in (w1 ++ w2, s2, g1 ++ g2))
           (k s1))
    ms.

(** All ways of matching [r] at the start of [s], in the order in which a
    backtracking matcher tries them. *)
Fixpoint rmatch (r : regex) (s : str) : list rmatch1 :=
  match r with
  | REps => [([], s, [])]
  | RChar c =>
      match s with
      | x :: s' => if (x =? c)%N then [([x], s', [])] else []
      | [] => []
      end
  | RClass ranges =>
      match s with
      | x :: s' => if in_class ranges x then [([x], s', [])] else []
      | [] => []
      end
  | RSeq r1 r2 => then_ (rmatch r1 s) (rmatch r2)
  | ROpt r1 => rmatch r1 s ++ [([], s, [])]
  | RRep n r1 =>
      (fix rep (n : nat) (s : str) : list rmatch1 :=
         match n with
         | O => [([], s, [])]
         | S k => then_ (rmatch r1 s) (rep k)
         end) n s
  | RGroup r1 =>
      map (fun m => let '(w, s1, g) := m in (w, s1, w :: g)) (rmatch r1 s)
  end.

Fixpoint rlit (p : str) : regex :=
  match p with
  | [] => REps
  | c :: p' => RSeq (RChar c) (rlit p')
  end.

(** [re.match(pattern, s)]: the groups of the preferred match, if any. *)
Definition re_match (r : regex) (s : str) : option (list str) :=
  match rmatch r s with
  | [] => None
  | (_, _, g) :: _ => Some g
  end.

(** [match.group(1)] *)
Definition group1 (g : list str) : result str := py_index g 0.

(** [(?:https?:\/\/)?] *)
Definition scheme_opt : regex :=
  ROpt (RSeq (rlit (lit "http")) (RSeq (ROpt (RChar 115%N)) (rlit (lit "://")))).

(** [(?:www\.)?] *)
Definition www_opt : regex := ROpt (rlit (lit "www.")).

(** The class [[_\-a-zA-Z0-9]]. *)
Definition id_ranges : list (char * char) :=
  [(95, 95); (45, 45); (97, 122); (65, 90); (48, 57)]%N.

(** [([_\-a-zA-Z0-9]{11})] *)
Definition id_group : regex := RGroup (RRep 11 (RClass id_ranges)).

(** The two entries of [patterns]. *)
Definition pattern_watch : regex :=
  RSeq scheme_opt
    (RSeq www_opt (RSeq (rlit (lit "youtube.com/watch?v=")) id_group)).

Definition pattern_short : regex :=
  RSeq scheme_opt (RSeq www_opt (RSeq (rlit (lit "youtu.be/")) id_group)).

Definition patterns : list regex := [pattern_watch; pattern_short].

(** The loop over [patterns]. *)
Fixpoint first_match (ps : list regex) (url : str) : result (option str) :=
  match ps with
  | [] => Ok None
  | pattern :: rest =>
      match re_match pattern url with
      | Some g => id <- group1 g ;; Ok (Some id)
      | None => first_match rest url
      end
  end.

Definition extract_video_id (url : str) : result (option str) :=
  first_match patterns url.

(** The parts of an accepted URL. *)
Definition schemes : list str := [[]; lit "http://"; lit "https://"].
Definition wwws : list str := [[]; lit "www."].
Definition hosts : list str := [lit "youtube.com/watch?v="; lit "youtu.be/"].

Definition id_char (c : char) : bool := in_class id_ranges c.

(** ** [download_youtube_transcript] *)

(** The messages passed to [st.error]. *)
Inductive error_message : Type :=
| InvalidUrl
| NotAvailable
| ErrorOccurred (e : exn).

(** What one call does: the value returned, the error messages shown, the
    video ids passed to [list_transcripts] and the number of [fetch()]
    calls. *)
Record download_run : Type := mk_download {
  returned : option str;
  errors : list error_message;
  listed : list str;
  fetched : nat
}.

Section Download.

(** A fetched transcript, its truth value ([if not transcript]) and
    [TextFormatter().format_transcript]. *)
Variable Transcript : Type.
Variable transcript_truthy : Transcript -> bool.
Variable format_transcript : Transcript -> result str.

(** [YouTubeTranscriptApi.list_transcripts(video_id)]: the transcript objects
    of the video in iteration order, each given by what its [fetch()]
    does. *)
Variable list_transcripts : str -> result (list (result Transcript)).

(** The loop over the transcript objects: the value of [transcript] after
    it, and the number of [fetch()] calls made. *)
Fixpoint fetch_first (objs : list (result Transcript))
  : option Transcript * nat :=
  match objs with
  | [] => (None, 0)
  | Ok t :: _ => (Some t, 1)
  | Raise _ :: rest => let '(r, n) := fetch_first rest in (r, S n)
  end.

Definition download_youtube_transcript (video_url : str)
  : result download_run :=
  video_id <- extract_video_id video_url ;;
  match video_id with
  | None | Some [] => Ok (mk_download None [InvalidUrl] [] 0)
  | Some id =>
      match list_transcripts id with
      | Raise e => Ok (mk_download None [ErrorOccurred e] [id] 0)
      | Ok objs =>
          let '(transcript, n) := fetch_first objs in
          match transcript with
          | Some t =>
              if transcript_truthy t then
                match format_transcript t with
                | Ok formatted => Ok (mk_download (Some formatted) [] [id] n)
                | Raise e => Ok (mk_download None [ErrorOccurred e] [id] n)
                end
              else Ok (mk_download None [NotAvailable] [id] n)
          | None => Ok (mk_download None [NotAvailable] [id] n)
          end
      end
  end.

End Download.

Definition is_raise {A : Type} (m : result A) : bool := negb (is_ok m).

(** A translator library that supports the two targets the script asks
    for, and no other. *)
Definition supports_en_hi (target : str) : result unit :=
  if str_eqb target (lit "en") || str_eqb target (lit "hi") then Ok tt
  else Raise LanguageNotSupportedException.

(** Two collaborators used in the examples: one that returns its input, and
    one that fails from its second request on. *)
Definition echo_backend (dest : str) (log : list str) (chunk : str)
  : result str := Ok chunk.

Definition failing_backend (dest : str) (log : list str) (chunk : str)
  : result str := if 1 <=? length log then Raise BackendError else Ok chunk.

(** The number of lines that begin with ['Q:']. *)
Fixpoint count_question_lines (lines : list str) : nat :=
  match lines with
  | [] => 0
  | raw :: rest =>
      (if startswith (lit "Q:") (strip raw) then 1 else 0)
      + count_question_lines rest
  end.

(** A ['Correct Answer:'] line comes before the first ['Q:'] line. *)
Fixpoint stray_label (lines : list str) : bool :=
  match lines with
  | [] => false
  | raw :: rest =>
      if startswith (lit "Q:") (strip raw) then false
      else if startswith_any option_markers (strip raw) then stray_label rest
      else if startswith (lit "Correct Answer:") (strip raw) then true
      else stray_label rest
  end.

(** What holds of every key the parser writes: a text and an options list
    come together, every option is a trimmed line that begins with a marker,
    the text and the label are trimmed, and the label holds no colon. *)
Definition parsed_fields (q : qdict) : Prop :=
  (question q = None <-> options q = None)
  /\ (forall os, options q = Some os ->
        Forall (fun o => startswith_any option_markers o = true
                         /\ strip o = o) os)
  /\ (forall t, question q = Some t -> strip t = t)
  /\ (forall l, correct_answer q = Some l -> strip l = l /\ ~ In colon l).

Definition meaningful (raw : str) : bool := negb (ignored_line raw).

(** A dictionary as the parser returns it. *)
Definition parsed_ok (q : qdict) : Prop :=
  dict_truthy q = true /\ parsed_fields q.

(** The number of dictionaries the parser would return if the text ended in
    this state. *)
Definition questions_so_far (st : pstate) : nat := length (finish st).

(** A question with a text and no option. *)
Definition mcq_text_only : qdict := mk_qdict (Some (lit "a")) (Some []) None.

(** The question has its ['question'] and ['options'] keys. *)
Definition has_keys (q : qdict) : bool :=
  match question q, options q with
  | Some _, Some _ => true
  | _, _ => false
  end.

(** Some option of the question does not contain [') ']. *)
Definition has_bare_option (q : qdict) : bool :=
  match options q with
  | Some os => existsb (fun o => negb (occurs (lit ") ") o)) os
  | None => false
  end.

(** Successive runs of [display_mcqs], each on the state the previous one
    left. *)
Fixpoint display_runs (ws : list widgets) (st : session_state)
  : result session_state :=
  match ws with
  | [] => Ok st
  | w :: rest =>
      r <- display_mcqs w st ;;
      display_runs rest (fst r)
  end.

(** A question with two options that read the same. *)
Definition twin_question : qdict :=
  mk_qdict (Some (lit "one")) (Some [lit "A) x"; lit "B) x"; lit "C) z"])
           (Some (lit "A")).

(** A question whose first option has no space after its marker. *)
Definition bare_question : qdict :=
  mk_qdict (Some (lit "a")) (Some [lit "A)x"]) None.

(** ** [generate_mcqs] *)

(** [str(n)] for a non-negative integer. *)
Definition decimal (n : nat) : str :=
  lit (DecimalString.NilEmpty.string_of_uint (Nat.to_uint n)).

(** The f-string [prompt]. *)
Definition prompt (transcript : str) (num_questions : nat) : str :=
  join newline
    [ [];
      lit "    Based on the following transcript, generate exactly "
        ++ decimal num_questions
        ++ lit " multiple-choice questions (MCQs) with 4 options each.";
      lit "    Ensure the questions cover various aspects of the video content to thoroughly check user understanding.";
      lit "    Format each question as follows:";
      lit "    Q: [Question]";
      lit "    A) [Option A]";
      lit "    B) [Option B]";
      lit "    C) [Option C]";
      lit "    D) [Option D]";
      lit "    Correct Answer: [A/B/C/D]";
      [];
      lit "    Transcript:";
      lit "    " ++ transcript;
      lit "    " ].

(** ** The script *)

(** The keys of [st.session_state]: those of the quiz, and those the script
    itself keeps. *)
Record app_state : Type := mk_app {
  language : str;
  video_url : str;
  num_questions : nat;
  transcript : option str;
  translated_transcript : option str;
  quiz : session_state
}.

(** The widget values of one run of the whole script: the language radio
    ([true] for "English"), the URL box, the slider, the "Generate MCQs"
    button and the widgets of the quiz. *)
Record inputs : Type := mk_inputs {
  language_radio : bool;
  url_input : str;
  slider : nat;
  generate_button : bool;
  quiz_widgets : widgets
}.

(** The calls a run makes to the collaborators. *)
Inductive event : Type :=
| Downloaded (url : str)
| Translated (dest : str) (requests : list str)
| Predicted (text : str).

(** How a run ends: normally, by an exception raised before the quiz is
    rendered, or by one raised while it is rendered. *)
Inductive ending : Type :=
| Completed (rep : option report)
| AbortedEarly (e : exn)
| AbortedInQuiz (e : exn).

(** The session state a run leaves, the calls it made and its ending.  An
    aborted run leaves what it had stored before the exception. *)
Record run : Type := mk_run {
  state_after : app_state;
  events : list event;
  ended : ending
}.

Definition language_name (english : bool) : str :=
  if english then lit "English" else lit "Hindi".

(** [language_code] *)
Definition language_code (name : str) : str :=
  if str_eqb name (lit "English") then lit "en" else lit "hi".

(** The state after [reset_state()] and the re-initialisation of the missing
    keys at the top of the script. *)
Definition app_reset (s : app_state) : app_state :=
  mk_app (language s) [] 10 None None reset_state.

Definition str_truthy (s : str) : bool :=
  match s with [] => false | _ :: _ => true end.

Section Script.

Variable Transcript : Type.
Variable transcript_truthy : Transcript -> bool.
Variable format_transcript : Transcript -> result str.
Variable list_transcripts : str -> result (list (result Transcript)).
Variable GoogleTranslator : str -> result unit.
Variable backend : str -> list str -> str -> result str.

(** [Client(os.getenv("CLIENT")).predict(prompt=..., api_name="/predict")] *)
Variable predict : str -> result str.

Definition generate_mcqs (transcript : str) (num_questions : nat)
    (language : str) : result str :=
  predict (prompt transcript num_questions).

(** The block under [if 'transcript' not in st.session_state]. *)
Definition download_step (s : app_state) : run :=
  match transcript s with
  | Some _ => mk_run s [] (Completed None)
  | None =>
      match download_youtube_transcript transcript_truthy format_transcript
              list_transcripts (video_url s) with
      | Raise e => mk_run s [Downloaded (video_url s)] (AbortedEarly e)
      | Ok r =>
          let s' :=
            match returned r with
            | Some t =>
                if str_truthy t
                then mk_app (language s) (video_url s) (num_questions s)
                            (Some t) (translated_transcript s) (quiz s)
                else s
            | None => s
            end in
          mk_run s' [Downloaded (video_url s)] (Completed None)
      end
  end.

(** The block that translates the stored transcript once. *)
Definition translate_step (s : app_state) : run :=
  match translated_transcript s, transcript s with
  | None, Some t =>
      let code := language_code (language s) in
      match translate_text GoogleTranslator backend code t with
      | (log, Raise e) => mk_run s [Translated code log] (AbortedEarly e)
      | (log, Ok translated) =>
          mk_run (mk_app (language s) (video_url s) (num_questions s)
                         (transcript s) (Some translated) (quiz s))
                 [Translated code log] (Completed None)
      end
  | _, _ => mk_run s [] (Completed None)
  end.

(** The block under [if 'translated_transcript' in st.session_state]. *)
Definition generate_step (inp : inputs) (s : app_state) : run :=
  match translated_transcript s with
  | None => mk_run s [] (Completed None)
  | Some translated =>
      let s1 := mk_app (language s) (video_url s) (slider inp)
                       (transcript s) (translated_transcript s) (quiz s) in
      if generate_button inp then
        let text := prompt translated (slider inp) in
        match generate_mcqs translated (slider inp) (language s) with
        | Raise e => mk_run s1 [Predicted text] (AbortedEarly e)
        | Ok mcqs_text =>
            match generate_clicked mcqs_text (quiz s1) with
            | Raise e => mk_run s1 [Predicted text] (AbortedEarly e)
            | Ok q =>
                mk_run (mk_app (language s1) (video_url s1) (num_questions s1)
                               (transcript s1) (translated_transcript s1) q)
                       [Predicted text] (Completed None)
            end
        end
      else mk_run s1 [] (Completed None)
  end.

(** Run [next] on the state [r] left, unless [r] was aborted. *)
Definition and_then (r : run) (next : app_state -> run) : run :=
  match ended r with
  | Completed _ =>
      let r' := next (state_after r) in
      mk_run (state_after r') (events r ++ events r') (ended r')
  | _ => r
  end.

(** The last two lines of the script, on the whole state.  A run aborted
    inside the quiz leaves the answers it had stored and, when the scoring
    block was reached, the submission. *)
Definition quiz_step (inp : inputs) (s : app_state) : run :=
  let s' := mk_app (language s) (video_url s) (num_questions s)
                   (transcript s) (translated_transcript s)
                   (fst (render_run (quiz_widgets inp) (quiz s))) in
  match snd (render_run (quiz_widgets inp) (quiz s)) with
  | Raise e => mk_run s' [] (AbortedInQuiz e)
  | Ok rep =>
      if list_truthy (questions (quiz s)) && start_again (quiz_widgets inp)
      then mk_run (app_reset s) [] (Completed rep)
      else mk_run s' [] (Completed rep)
  end.

(** One run of the script, from the language radio to the end. *)
Definition script_run (inp : inputs) (s : app_state) : run :=
  let s0 := mk_app (language_name (language_radio inp)) (url_input inp)
                   (num_questions s) (transcript s)
                   (translated_transcript s) (quiz s) in
  and_then
    (if str_truthy (url_input inp)
     then and_then (and_then (download_step s0) translate_step)
                   (generate_step inp)
     else mk_run s0 [] (Completed None))
    (quiz_step inp).

(** Successive runs, each on the state the previous one left, however that
    one ended: the final state and all the calls made. *)
Fixpoint script_runs (ins : list inputs) (s : app_state)
  : app_state * list event :=
  match ins with
  | [] => (s, [])
  | inp :: rest =>
      let r := script_run inp s in
      let '(s', evs) := script_runs rest (state_after r) in
      (s', events r ++ evs)
  end.

End Script.

(** The state of a fresh session after the initialisation at the top of the
    script. *)
Definition app_initial : app_state :=
  mk_app (lit "English") [] 10 None None reset_state.

Definition is_download (e : event) : bool :=
  match e with Downloaded _ => true | _ => false end.

Definition is_translation (e : event) : bool :=
  match e with Translated _ _ => true | _ => false end.

Definition no_restart (inp : inputs) : bool :=
  negb (start_again (quiz_widgets inp)).

(** The calls allowed once the translated transcript [tt] is stored:
    generation requests built from [tt]. *)
Definition generation_from (tt : str) (e : event) : Prop :=
  exists n, e = Predicted (prompt tt n).

(** A run leaves a state in [P] and makes only calls in [Q]. *)
Definition run_keeps (P : app_state -> Prop) (Q : event -> Prop) (r : run)
  : Prop :=
  P (state_after r) /\ Forall Q (events r).

(** A transcript and its translation are stored. *)
Definition cached (t tt : str) (s : app_state) : Prop :=
  transcript s = Some t /\ translated_transcript s = Some tt.

Definition not_download (e : event) : Prop := is_download e = false.

(** * Properties *)

Example parse_one :
  parse_mcqs (lit "Q: x" ++ newline ++ lit " A) a " ++ newline
              ++ lit "Correct Answer: A")
  = Ok [mk_qdict (Some (lit "x")) (Some [lit "A) a"]) (Some (lit "A"))].
Proof. vm_compute. reflexivity. Qed.

(** ** Chunking *)

Section Chunks.

Variable T : Type.

Lemma firstn_plus (a b : nat) (l : list T) :
  firstn (a + b) l = firstn a l ++ firstn b (skipn a l).
Proof.
  revert l; induction a as [|a IH]; intros l; simpl.
  - reflexivity.
  - destruct l as [|x l]; simpl.
    + now rewrite firstn_nil.
    + now rewrite IH.
Qed.

Lemma concat_pieces (size m : nat) (l : list T) :
  concat (map (fun k => firstn size (skipn (k * size) l)) (seq 0 m))
  = firstn (m * size) l.
Proof.
  induction m as [|m IH].
  - reflexivity.
  - rewrite seq_S, map_app, concat_app, IH; simpl.
    rewrite app_nil_r, (Nat.add_comm size), firstn_plus.
    reflexivity.
Qed.

End Chunks.

Lemma chunk_count_covers (n size : nat) :
  0 < size -> 0 < n -> n <= ((n - 1) / size + 1) * size.
Proof.
  intros Hs Hn.
  pose proof (Nat.mul_succ_div_gt (n - 1) size ltac:(lia)) as H.
  nia.
Qed.

Lemma chunk_count_tight (n size k : nat) :
  0 < size -> 0 < n -> S k < (n - 1) / size + 1 -> k * size + size < n.
Proof.
  intros Hs Hn Hk.
  pose proof (Nat.Div0.mul_div_le (n - 1) size) as H.
  nia.
Qed.

Lemma split_chunks_eq (size : nat) (text : str) :
  0 < size ->
  split_chunks size text
  = Ok (map (fun k => firstn size (skipn (k * size) text))
            (seq 0 (if 0 <? length text
                    then (length text - 0 - 1) / size + 1 else 0))).
Proof.
  intros Hs. unfold split_chunks, py_range.
  destruct (Nat.eqb_spec size 0) as [->|_]; [lia|].
  simpl. rewrite map_map. f_equal. apply map_ext.
  intros k. unfold slice. simpl. f_equal. lia.
Qed.

(** C5: for every text and every positive chunk size, the splitting step
    returns consecutive slices [text[k*S : k*S+S]] in index order; every chunk
    is non-empty and at most [S] long, every chunk but the last is exactly
    [S] long, and the chunks concatenated in order give back the text. *)
Theorem split_chunks_roundtrip (size : nat) (text : str) :
  0 < size ->
  exists chunks,
    split_chunks size text = Ok chunks
    /\ concat chunks = text
    /\ (forall k, k < length chunks ->
          nth k chunks [] = slice text (k * size) (k * size + size))
    /\ Forall (fun c => 0 < length c <= size) chunks
    /\ (forall k, S k < length chunks -> length (nth k chunks []) = size).
Proof.
  intros Hs. rewrite (split_chunks_eq text Hs).
  set (n := length text).
  set (m := if 0 <? n then (n - 0 - 1) / size + 1 else 0).
  assert (Hcover : n <= m * size).
  { subst m. destruct (Nat.ltb_spec 0 n) as [Hn|Hn]; [|lia].
    rewrite Nat.sub_0_r. now apply chunk_count_covers. }
  assert (Htight : forall k, S k < m -> k * size + size < n).
  { intros k Hk. subst m. destruct (Nat.ltb_spec 0 n) as [Hn|Hn]; [|lia].
    rewrite Nat.sub_0_r in Hk. now apply chunk_count_tight. }
  assert (Hstart : forall k, k < m -> k * size < n).
  { intros [|k] Hk.
    - revert Hk. subst m. destruct (Nat.ltb_spec 0 n); simpl; lia.
    - specialize (Htight k Hk). lia. }
  assert (Hnth : forall k, k < m ->
            nth k (map (fun k => firstn size (skipn (k * size) text)) (seq 0 m)) []
            = firstn size (skipn (k * size) text)).
  { intros k Hk.
    rewrite (nth_indep _ [] (firstn size (skipn (0 * size) text)))
      by now rewrite length_map, length_seq.
    rewrite (map_nth (fun k => firstn size (skipn (k * size) text))).
    now rewrite seq_nth. }
  eexists. split; [reflexivity|].
  rewrite length_map, length_seq.
  split; [|split; [|split]].
  - rewrite concat_pieces. apply firstn_all2. exact Hcover.
  - intros k Hk. rewrite Hnth by exact Hk. unfold slice. f_equal. lia.
  - apply Forall_forall. intros c Hc.
    apply in_map_iff in Hc. destruct Hc as [k [<- Hk]].
    apply in_seq in Hk.
    rewrite length_firstn, length_skipn. fold n.
    specialize (Hstart k ltac:(lia)). lia.
  - intros k Hk. rewrite Hnth by lia.
    rewrite length_firstn, length_skipn. fold n.
    specialize (Htight k Hk). lia.
Qed.

Lemma split_chunks_roundtrip_witness :
  0 < 2 /\
  exists chunks,
    split_chunks 2 (lit "abcde") = Ok chunks
    /\ concat chunks = lit "abcde"
    /\ (forall k, k < length chunks ->
          nth k chunks [] = slice (lit "abcde") (k * 2) (k * 2 + 2))
    /\ Forall (fun c => 0 < length c <= 2) chunks
    /\ (forall k, S k < length chunks -> length (nth k chunks []) = 2).
Proof.
  split; [lia | apply (@split_chunks_roundtrip 2 (lit "abcde")); lia].
Defined.

Example split_chunks_abcde :
  split_chunks 2 (lit "abcde") = Ok [lit "ab"; lit "cd"; lit "e"].
Proof. reflexivity. Qed.

(** When every request succeeds, the requests are the chunks, in order, one
    request per chunk. *)
Lemma translate_all_requests (backend : str -> list str -> str -> result str)
    (dest_language : str) (chunks : list str) :
  forall (log log' : list str) (ts : list str),
    translate_all backend dest_language log chunks = (log', Ok ts) ->
    log' = log ++ chunks /\ length ts = length chunks.
Proof.
  induction chunks as [|c chunks IH]; intros log log' ts H.
  - injection H as <- <-. now rewrite app_nil_r.
  - cbn [translate_all] in H.
    destruct (backend dest_language log c) as [t|e]; [|discriminate].
    destruct (translate_all backend dest_language (log ++ [c]) chunks)
      as [log1 [ts1|e]] eqn:E; [|discriminate].
    injection H as <- <-.
    destruct (IH _ _ _ E) as [-> Hlen].
    rewrite <- app_assoc. split; [reflexivity|]. simpl. now rewrite Hlen.
Qed.

(** C9: translating the empty string sends no request to the translation
    collaborator, whatever the collaborator and the target language: the
    empty string is cut into no chunk.  It returns the empty string as soon
    as the translator for the target language can be built. *)
Theorem translate_text_empty (GoogleTranslator : str -> result unit)
    (backend : str -> list str -> str -> result str) (dest_language : str) :
  split_chunks chunk_size [] = Ok []
  /\ fst (translate_text GoogleTranslator backend dest_language []) = []
  /\ (GoogleTranslator dest_language = Ok tt ->
      translate_text GoogleTranslator backend dest_language [] = ([], Ok [])).
Proof.
  assert (Hchunks : split_chunks chunk_size [] = Ok []) by reflexivity.
  split; [exact Hchunks|].
  unfold translate_text. rewrite Hchunks.
  destruct (GoogleTranslator dest_language) as [u|e].
  - split; [reflexivity|]. intros _. reflexivity.
  - split; [reflexivity|]. intros H. discriminate H.
Qed.

Lemma translate_text_empty_witness :
  supports_en_hi (lit "hi") = Ok tt
  /\ translate_text supports_en_hi failing_backend (lit "hi") [] = ([], Ok []).
Proof.
  split; [reflexivity|].
  apply (proj2 (proj2 (@translate_text_empty supports_en_hi failing_backend
                         (lit "hi")))).
  reflexivity.
Defined.

(** Built for a target it does not support, the translator raises before
    the text is looked at. *)
Example translate_text_unsupported :
  translate_text supports_en_hi echo_backend (lit "xx") []
  = ([], Raise LanguageNotSupportedException).
Proof. reflexivity. Qed.

(** ** Facts about the string primitives *)

Lemma startswith_app (p s : str) : startswith p (p ++ s) = true.
Proof.
  induction p as [|a p IH]; simpl; [reflexivity|].
  now rewrite N.eqb_refl.
Qed.

Lemma startswith_split (p s : str) :
  startswith p s = true -> s = p ++ skipn (length p) s.
Proof.
  revert s; induction p as [|a p IH]; intros s H; simpl in *.
  - reflexivity.
  - destruct s as [|b s]; [discriminate|].
    apply andb_prop in H. destruct H as [Hab Hps].
    apply N.eqb_eq in Hab. subst b. simpl. f_equal. now apply IH.
Qed.

(** Splitting on a one-character separator. *)
Lemma split_char_nil (c : char) : split [c] [] = [[]].
Proof. reflexivity. Qed.

Lemma split_char_sep (c : char) (s : str) :
  split [c] (c :: s) = [] :: split [c] s.
Proof. unfold split. simpl. now rewrite N.eqb_refl. Qed.

Lemma split_char_other (c x : char) (s : str) :
  x <> c -> split [c] (x :: s) = cons_head x (split [c] s).
Proof.
  intros Hx. unfold split. simpl.
  destruct (N.eqb_spec c x) as [->|_]; [contradiction|reflexivity].
Qed.

Lemma split_char_absent (c : char) (s : str) :
  ~ In c s -> split [c] s = [s].
Proof.
  induction s as [|x s IH]; intros Hc.
  - reflexivity.
  - rewrite split_char_other by (intros ->; apply Hc; now left).
    rewrite IH by (intros H; apply Hc; now right).
    reflexivity.
Qed.

Lemma split_char_first (c : char) (a b : str) :
  ~ In c a -> split [c] (a ++ c :: b) = a :: split [c] b.
Proof.
  induction a as [|x a IH]; intros Hc; simpl.
  - apply split_char_sep.
  - rewrite split_char_other by (intros ->; apply Hc; now left).
    rewrite IH by (intros H; apply Hc; now right).
    reflexivity.
Qed.

Lemma split_char_nonempty (c : char) (s : str) : split [c] s <> [].
Proof.
  destruct s as [|x s]; [discriminate|].
  destruct (N.eq_dec x c) as [->|Hx].
  - rewrite split_char_sep. discriminate.
  - rewrite split_char_other by exact Hx.
    destruct (split [c] s); discriminate.
Qed.

Lemma cons_head_app (x : char) (l1 l2 : list str) :
  l1 <> [] -> cons_head x (l1 ++ l2) = cons_head x l1 ++ l2.
Proof. destruct l1; [contradiction|reflexivity]. Qed.

(** Appending one more line to a text appends one element to its lines. *)
Lemma split_char_last (c : char) (pre l : str) :
  ~ In c l -> split [c] (pre ++ c :: l) = split [c] pre ++ [l].
Proof.
  intros Hl. induction pre as [|x pre IH]; simpl.
  - rewrite split_char_sep, split_char_absent by exact Hl. reflexivity.
  - destruct (N.eq_dec x c) as [->|Hx].
    + rewrite !split_char_sep, IH. reflexivity.
    + rewrite !split_char_other by exact Hx.
      rewrite IH. apply cons_head_app, split_char_nonempty.
Qed.

(** Lines joined by the separator split back into the same lines. *)
Lemma split_join (c : char) (l : str) (ls : list str) :
  Forall (fun x => ~ In c x) (l :: ls) ->
  split [c] (join [c] (l :: ls)) = l :: ls.
Proof.
  revert l; induction ls as [|l' ls IH]; intros l H.
  - simpl. apply split_char_absent. now inversion H.
  - inversion H as [|? ? Hl Hrest]; subst.
    change (join [c] (l :: l' :: ls)) with (l ++ c :: join [c] (l' :: ls)).
    rewrite split_char_first by exact Hl.
    now rewrite IH.
Qed.

Lemma split_absent (sep s : str) :
  occurs sep s = false -> split sep s = [s].
Proof.
  unfold split. induction s as [|x s IH]; intros H.
  - reflexivity.
  - cbn [occurs] in H. apply orb_false_elim in H. destruct H as [H1 H2].
    cbn [split_go]. rewrite H1, IH by exact H2. reflexivity.
Qed.

(** Trimming. *)
Lemma lstrip_length (s : str) : length (lstrip s) <= length s.
Proof.
  induction s as [|c s IH]; simpl; [lia|].
  destruct (is_space c); simpl; lia.
Qed.

Lemma rstrip_length (s : str) : length (rstrip s) <= length s.
Proof.
  unfold rstrip. rewrite length_rev.
  etransitivity; [apply lstrip_length|]. now rewrite length_rev.
Qed.

Lemma lstrip_fixed (s : str) : length (lstrip s) = length s -> lstrip s = s.
Proof.
  destruct s as [|c s]; simpl; [reflexivity|].
  destruct (is_space c); [|reflexivity].
  intros H. pose proof (lstrip_length s). lia.
Qed.

Lemma strip_fixed (s : str) : strip s = s -> lstrip s = s /\ rstrip s = s.
Proof.
  intros H. unfold strip in H.
  assert (Hl : lstrip s = s).
  { apply lstrip_fixed.
    pose proof (lstrip_length s). pose proof (rstrip_length (lstrip s)).
    rewrite H in *. lia. }
  split; [exact Hl|]. now rewrite Hl in H.
Qed.

Lemma rstrip_snoc (s : str) (c : char) :
  is_space c = false -> rstrip (s ++ [c]) = s ++ [c].
Proof.
  intros Hc. unfold rstrip. rewrite rev_app_distr. simpl. rewrite Hc.
  simpl. now rewrite rev_involutive.
Qed.

Lemma rstrip_fixed_last (s : str) :
  rstrip s = s -> s <> [] -> exists s' c, s = s' ++ [c] /\ is_space c = false.
Proof.
  intros H Hne.
  destruct (exists_last Hne) as [s' [c Hs]]. exists s', c. split; [exact Hs|].
  destruct (is_space c) eqn:Hc; [exfalso|reflexivity].
  subst s. unfold rstrip in H. rewrite rev_app_distr in H. simpl in H.
  rewrite Hc in H. apply (f_equal (@length char)) in H.
  rewrite length_rev, length_app in H. simpl in H.
  pose proof (lstrip_length (rev s')). rewrite length_rev in *. lia.
Qed.

Lemma rstrip_app_fixed (a s : str) :
  rstrip s = s -> s <> [] -> rstrip (a ++ s) = a ++ s.
Proof.
  intros H Hne. destruct (rstrip_fixed_last H Hne) as [s' [c [-> Hc]]].
  rewrite app_assoc. now apply rstrip_snoc.
Qed.

(** ** The parser *)

Lemma parse_loop_app (st : pstate) (l1 l2 : list str) :
  parse_loop st (l1 ++ l2) = (st' <- parse_loop st l1 ;; parse_loop st' l2).
Proof.
  revert st; induction l1 as [|l l1 IH]; intros st; simpl.
  - reflexivity.
  - destruct (parse_line st l) as [st'|e]; simpl; [apply IH|reflexivity].
Qed.

Lemma lines_of_snoc (pre raw : str) :
  ~ In 10%N raw -> lines_of (pre ++ newline ++ raw) = lines_of pre ++ [raw].
Proof. intros H. unfold lines_of, newline. simpl. now apply split_char_last. Qed.

Lemma marker_not_question (line : str) :
  startswith_any option_markers line = true ->
  startswith (lit "Q:") line = false.
Proof.
  change (lit "Q:") with [81%N; 58%N].
  change option_markers
    with [[65%N; 41%N]; [66%N; 41%N]; [67%N; 41%N]; [68%N; 41%N]].
  destruct line as [|a [|b line]]; try reflexivity.
  - intros _. cbn [startswith]. apply andb_false_r.
  - cbn [startswith_any existsb startswith].
    destruct (N.eqb_spec 81 a) as [<-|_]; [|reflexivity].
    cbn. discriminate.
Qed.

Lemma answer_line_shape (line : str) :
  startswith (lit "Correct Answer:") line = true ->
  line = lit "Correct Answer:" ++ skipn 15 line.
Proof. intros H. apply (startswith_split _ _ H). Qed.

Lemma parse_line_question (qs : list qdict) (cur : qdict) (raw : str) :
  startswith (lit "Q:") (strip raw) = true ->
  parse_line (qs, cur) raw
  = Ok (if dict_truthy cur then qs ++ [cur] else qs,
        mk_qdict (Some (strip (skipn 2 (strip raw)))) (Some []) None).
Proof. intros H. unfold parse_line. now rewrite H. Qed.

Lemma parse_line_option (qs : list qdict) (cur : qdict) (raw : str) :
  startswith_any option_markers (strip raw) = true ->
  parse_line (qs, cur) raw
  = match options cur with
    | Some opts =>
        Ok (qs, mk_qdict (question cur) (Some (opts ++ [strip raw]))
                         (correct_answer cur))
    | None => Raise KeyError
    end.
Proof.
  intros H. unfold parse_line.
  now rewrite (marker_not_question _ H), H.
Qed.

Lemma split_char_head (c : char) (s : str) :
  exists rest, split [c] s = up_to c s :: rest.
Proof.
  induction s as [|x s [rest IH]].
  - now exists [].
  - simpl. destruct (N.eqb_spec x c) as [->|Hx].
    + rewrite split_char_sep. eauto.
    + rewrite split_char_other, IH by exact Hx. simpl. eauto.
Qed.

Lemma up_to_absent (c : char) (s : str) : ~ In c s -> up_to c s = s.
Proof.
  induction s as [|x s IH]; intros H; simpl; [reflexivity|].
  destruct (N.eqb_spec x c) as [->|_].
  - exfalso. apply H. now left.
  - f_equal. apply IH. intros Hin. apply H. now right.
Qed.

Lemma parse_line_answer (qs : list qdict) (cur : qdict) (raw : str) :
  startswith (lit "Correct Answer:") (strip raw) = true ->
  parse_line (qs, cur) raw
  = Ok (qs, mk_qdict (question cur) (options cur)
                     (Some (strip (up_to colon (skipn 15 (strip raw)))))).
Proof.
  intros H. unfold parse_line.
  pose proof (answer_line_shape _ H) as Hshape.
  set (rest := skipn 15 (strip raw)) in *.
  rewrite Hshape.
  change (startswith (lit "Q:") (lit "Correct Answer:" ++ rest)) with false.
  change (startswith_any option_markers (lit "Correct Answer:" ++ rest))
    with false.
  cbv iota.
  rewrite (startswith_app (lit "Correct Answer:") rest).
  change (lit "Correct Answer:" ++ rest)
    with (lit "Correct Answer" ++ colon :: rest).
  change (lit ":") with [colon].
  rewrite split_char_first by (vm_compute; intuition discriminate).
  destruct (split_char_head colon rest) as [tl ->].
  reflexivity.
Qed.

(** C2, as stated, fails: a question without a correct-label is appended all
    the same when the next ['Q:'] line arrives. *)
Lemma question_line_label_counterexample :
  ~ (forall (qs : list qdict) (cur : qdict) (raw : str),
       startswith (lit "Q:") (strip raw) = true ->
       parse_line (qs, cur) raw
       = Ok (if has_label cur then qs ++ [cur] else qs,
             mk_qdict (Some (strip (skipn 2 (strip raw)))) (Some []) None)).
Proof.
  intros H.
  specialize (H [] (mk_qdict (Some (lit "a")) (Some []) None) (lit "Q: b")
                eq_refl).
  vm_compute in H. discriminate H.
Qed.

Example two_questions_without_label :
  parse_mcqs (lit "Q: a" ++ newline ++ lit "Q: b")
  = Ok [mk_qdict (Some (lit "a")) (Some []) None;
        mk_qdict (Some (lit "b")) (Some []) None].
Proof. vm_compute. reflexivity. Qed.

(** C2 (amended): on a line that begins with ['Q:'] once trimmed, the
    dictionary being assembled is appended to the output exactly when it is
    non-empty, with or without a correct-label, and a new dictionary is
    started whose text is the trimmed remainder of the line and whose options
    are empty; this holds for the loop body in every state, and so for the
    last line of every text. *)
Theorem question_line_transition :
  (forall (qs : list qdict) (cur : qdict) (raw : str),
     startswith (lit "Q:") (strip raw) = true ->
     parse_line (qs, cur) raw
     = Ok (if dict_truthy cur then qs ++ [cur] else qs,
           mk_qdict (Some (strip (skipn 2 (strip raw)))) (Some []) None))
  /\
  (forall (pre raw : str) (qs : list qdict) (cur : qdict),
     parse_loop initial (lines_of pre) = Ok (qs, cur) ->
     ~ In 10%N raw ->
     startswith (lit "Q:") (strip raw) = true ->
     parse_loop initial (lines_of (pre ++ newline ++ raw))
     = Ok (if dict_truthy cur then qs ++ [cur] else qs,
           mk_qdict (Some (strip (skipn 2 (strip raw)))) (Some []) None)).
Proof.
  split.
  - exact parse_line_question.
  - intros pre raw qs cur Hpre Hnl Hq.
    rewrite lines_of_snoc by exact Hnl.
    rewrite parse_loop_app, Hpre. cbn [bind parse_loop].
    now rewrite parse_line_question by exact Hq.
Qed.

Lemma question_line_transition_witness :
  parse_loop initial (lines_of (lit "Q: a" ++ newline ++ lit " Q:  b "))
  = Ok ([mk_qdict (Some (lit "a")) (Some []) None],
        mk_qdict (Some (lit "b")) (Some []) None).
Proof.
  apply (proj2 question_line_transition (lit "Q: a") (lit " Q:  b ")
               [] (mk_qdict (Some (lit "a")) (Some []) None)).
  - reflexivity.
  - vm_compute. intuition discriminate.
  - reflexivity.
Defined.

(** C7, as stated, fails: the label is cut at a second colon. *)
Lemma correct_label_whole_rest_counterexample :
  ~ (forall (qs : list qdict) (cur : qdict) (raw : str),
       startswith (lit "Correct Answer:") (strip raw) = true ->
       parse_line (qs, cur) raw
       = Ok (qs, mk_qdict (question cur) (options cur)
                          (Some (strip (after colon (strip raw)))))).
Proof.
  intros H.
  specialize (H [] (mk_qdict (Some (lit "a")) (Some []) None)
                (lit "Correct Answer: A: it is the first") eq_refl).
  vm_compute in H. discriminate H.
Qed.

Example label_cut_at_second_colon :
  parse_line ([], mk_qdict (Some (lit "a")) (Some []) None)
             (lit "Correct Answer: A: it is the first")
  = Ok ([], mk_qdict (Some (lit "a")) (Some []) (Some (lit "A"))).
Proof. vm_compute. reflexivity. Qed.

(** C7 (amended): on a line that begins with ['Correct Answer:'] once
    trimmed, the parser sets the correct-label of the dictionary being
    assembled to the trimmed text between the first colon of the line and the
    next colon, or the end of the line when there is no further colon; the
    other keys and the output list are left as they are. *)
Theorem correct_label_extraction (qs : list qdict) (cur : qdict) (raw : str) :
  startswith (lit "Correct Answer:") (strip raw) = true ->
  parse_line (qs, cur) raw
  = Ok (qs, mk_qdict (question cur) (options cur)
                     (Some (strip (up_to colon (after colon (strip raw))))))
  /\ (~ In colon (after colon (strip raw)) ->
      up_to colon (after colon (strip raw)) = after colon (strip raw)).
Proof.
  intros H. split.
  - rewrite parse_line_answer by exact H.
    rewrite (answer_line_shape _ H) at 2.
    reflexivity.
  - apply up_to_absent.
Qed.

Lemma correct_label_extraction_witness :
  parse_line ([], empty_dict) (lit "  Correct Answer:  B : x ")
  = Ok ([], mk_qdict None None (Some (lit "B"))).
Proof.
  apply (proj1 (@correct_label_extraction [] empty_dict
                  (lit "  Correct Answer:  B : x ") eq_refl)).
Defined.

Lemma split_char_app (c : char) (pre rest : str) :
  split [c] (pre ++ c :: rest) = split [c] pre ++ split [c] rest.
Proof.
  induction pre as [|x pre IH]; simpl.
  - now rewrite split_char_sep.
  - destruct (N.eq_dec x c) as [->|Hx].
    + now rewrite !split_char_sep, IH.
    + rewrite !split_char_other by exact Hx.
      rewrite IH. apply cons_head_app, split_char_nonempty.
Qed.

Lemma lines_of_app (pre : str) (l : str) (ls : list str) :
  Forall (fun x => ~ In 10%N x) (l :: ls) ->
  lines_of (pre ++ newline ++ join newline (l :: ls))
  = lines_of pre ++ l :: ls.
Proof.
  intros H. unfold lines_of, newline.
  change (pre ++ [10%N] ++ join [10%N] (l :: ls))
    with (pre ++ 10%N :: join [10%N] (l :: ls)).
  now rewrite split_char_app, split_join.
Qed.

Lemma parse_loop_options (opts : list str) :
  Forall (fun o => startswith_any option_markers (strip o) = true) opts ->
  forall (qs : list qdict) (cur : qdict) (acc : list str),
    options cur = Some acc ->
    parse_loop (qs, cur) opts
    = Ok (qs, mk_qdict (question cur) (Some (acc ++ map strip opts))
                       (correct_answer cur)).
Proof.
  induction 1 as [|o opts Ho _ IH]; intros qs cur acc Hacc.
  - simpl. rewrite app_nil_r. destruct cur; simpl in *. now subst.
  - cbn [parse_loop]. rewrite parse_line_option by exact Ho.
    rewrite Hacc. cbn [bind].
    rewrite (IH qs (mk_qdict (question cur) (Some (acc ++ [strip o]))
                             (correct_answer cur))
                (acc ++ [strip o]) eq_refl).
    cbn [question correct_answer map]. now rewrite <- app_assoc.
Qed.

(** C8: a text that ends while a dictionary is being assembled (it is
    non-empty after the last line) yields that dictionary as the last element
    of the output; in particular a trailing ['Q:'] line followed only by
    option lines yields a last question with its text and options and with no
    correct-label. *)
Theorem trailing_question_appended :
  (forall (text : str) (qs : list qdict) (cur : qdict),
     parse_loop initial (lines_of text) = Ok (qs, cur) ->
     dict_truthy cur = true ->
     parse_mcqs text = Ok (qs ++ [cur]))
  /\
  (forall (pre qline : str) (opts : list str) (qs : list qdict) (cur : qdict),
     parse_loop initial (lines_of pre) = Ok (qs, cur) ->
     ~ In 10%N qline ->
     startswith (lit "Q:") (strip qline) = true ->
     Forall (fun o => ~ In 10%N o) opts ->
     Forall (fun o => startswith_any option_markers (strip o) = true) opts ->
     parse_mcqs (pre ++ newline ++ join newline (qline :: opts))
     = Ok ((if dict_truthy cur then qs ++ [cur] else qs)
           ++ [mk_qdict (Some (strip (skipn 2 (strip qline))))
                        (Some (map strip opts)) None])).
Proof.
  split.
  - intros text qs cur Hloop Hcur. unfold parse_mcqs.
    rewrite Hloop. simpl.
    now rewrite Hcur.
  - intros pre qline opts qs cur Hpre Hq Hstart Hnl Hopts.
    unfold parse_mcqs.
    rewrite lines_of_app by (constructor; assumption).
    rewrite parse_loop_app, Hpre. cbn [bind parse_loop].
    rewrite parse_line_question by exact Hstart. cbn [bind].
    rewrite (parse_loop_options Hopts _
               (mk_qdict (Some (strip (skipn 2 (strip qline)))) (Some []) None)
               eq_refl).
    reflexivity.
Qed.

Lemma trailing_question_appended_witness :
  parse_mcqs (lit "Q: a" ++ newline ++ lit "Correct Answer: A" ++ newline
              ++ lit "Q: b" ++ newline ++ lit "A) x" ++ newline ++ lit "B) y")
  = Ok [mk_qdict (Some (lit "a")) (Some []) (Some (lit "A"));
        mk_qdict (Some (lit "b")) (Some [lit "A) x"; lit "B) y"]) None].
Proof.
  apply (proj2 trailing_question_appended
               (lit "Q: a" ++ newline ++ lit "Correct Answer: A")
               (lit "Q: b") [lit "A) x"; lit "B) y"]
               [] (mk_qdict (Some (lit "a")) (Some []) (Some (lit "A")))).
  - reflexivity.
  - vm_compute. intuition discriminate.
  - reflexivity.
  - repeat constructor; vm_compute; intuition discriminate.
  - repeat constructor.
Defined.

Lemma markers_follow_question_spec (lines : list str) (seen : bool) :
  markers_follow_question seen lines = true <->
  (forall l1 raw l2,
     lines = l1 ++ raw :: l2 ->
     startswith_any option_markers (strip raw) = true ->
     seen = true
     \/ Exists (fun r => startswith (lit "Q:") (strip r) = true) l1).
Proof.
  revert seen; induction lines as [|x lines IH]; intros seen.
  - split; [|reflexivity]. intros _ [|? ?] ? ? H; discriminate H.
  - cbn [markers_follow_question].
    destruct (startswith (lit "Q:") (strip x)) eqn:Hq.
    + rewrite IH. split.
      * intros H [|y l1] raw l2 E Hm; inversion E; subst.
        -- rewrite (marker_not_question _ Hm) in Hq. discriminate.
        -- right. now left.
      * intros H l1 raw l2 E Hm. now left.
    + destruct (startswith_any option_markers (strip x)) eqn:Hx.
      * rewrite andb_true_iff, IH. split.
        -- intros [-> _] l1 raw l2 E Hm. now left.
        -- intros H. split.
           ++ destruct (H [] x lines eq_refl Hx) as [Hs|Hex]; [exact Hs|].
              inversion Hex.
           ++ intros l1 raw l2 E Hm.
              destruct (H (x :: l1) raw l2 (f_equal (cons x) E) Hm)
                as [Hs|Hex]; [now left|].
              inversion Hex as [? ? Hh|? ? Ht]; subst.
              ** rewrite Hh in Hq. discriminate.
              ** now right.
      * rewrite IH. split.
        -- intros H [|y l1] raw l2 E Hm; inversion E; subst.
           ++ rewrite Hm in Hx. discriminate.
           ++ destruct (H l1 raw l2 eq_refl Hm) as [Hs|Hex];
                [now left|right; now right].
        -- intros H l1 raw l2 E Hm.
           destruct (H (x :: l1) raw l2 (f_equal (cons x) E) Hm)
             as [Hs|Hex]; [now left|].
           inversion Hex as [? ? Hh|? ? Ht]; subst.
           ++ rewrite Hh in Hq. discriminate.
           ++ now right.
Qed.

(** The loop fails exactly on a marker line that no ['Q:'] line precedes. *)
Lemma parse_loop_outcome (lines : list str) :
  forall (qs : list qdict) (cur : qdict),
    if markers_follow_question (has_options cur) lines
    then exists st, parse_loop (qs, cur) lines = Ok st
    else parse_loop (qs, cur) lines = Raise KeyError.
Proof.
  induction lines as [|raw lines IH]; intros qs cur.
  - simpl. eauto.
  - cbn [markers_follow_question parse_loop].
    destruct (startswith (lit "Q:") (strip raw)) eqn:Hq.
    + rewrite parse_line_question by exact Hq. cbn [bind].
      exact (IH (if dict_truthy cur then qs ++ [cur] else qs)
                (mk_qdict (Some (strip (skipn 2 (strip raw)))) (Some []) None)).
    + destruct (startswith_any option_markers (strip raw)) eqn:Hm.
      * rewrite parse_line_option by exact Hm.
        unfold has_options at 1.
        destruct (options cur) as [opts|] eqn:Hopts; cbn [andb bind].
        -- specialize (IH qs (mk_qdict (question cur)
                                (Some (opts ++ [strip raw]))
                                (correct_answer cur))).
           unfold has_options in *. cbn [options] in IH.
           rewrite Hopts. exact IH.
        -- reflexivity.
      * destruct (startswith (lit "Correct Answer:") (strip raw)) eqn:Ha.
        -- rewrite parse_line_answer by exact Ha. cbn [bind].
           specialize (IH qs (mk_qdict (question cur) (options cur)
                                (Some (strip (up_to colon
                                                (skipn 15 (strip raw))))))).
           exact IH.
        -- unfold parse_line. rewrite Hq, Hm, Ha. cbn [bind]. apply IH.
Qed.

(** C10: [parse_mcqs] is partial: on some text whose first marker line has
    no ['Q:'] line before it, it raises [KeyError] (indeed on every such
    text); when every marker line is preceded by a ['Q:'] line it raises
    nothing and returns a list of questions. *)
Theorem parse_mcqs_partial :
  (exists text : str,
     markers_follow_question false (lines_of text) = false
     /\ parse_mcqs text = Raise KeyError)
  /\ (forall text : str,
        markers_follow_question false (lines_of text) = false ->
        parse_mcqs text = Raise KeyError)
  /\ (forall text : str,
        markers_follow_question false (lines_of text) = true ->
        exists qs, parse_mcqs text = Ok qs).
Proof.
  split; [|split].
  - exists (lit "A) first"). split; reflexivity.
  - intros text H. unfold parse_mcqs, initial.
    pose proof (parse_loop_outcome (lines_of text) [] empty_dict) as Hl.
    change (has_options empty_dict) with false in Hl.
    rewrite H in Hl. now rewrite Hl.
  - intros text H. unfold parse_mcqs, initial.
    pose proof (parse_loop_outcome (lines_of text) [] empty_dict) as Hl.
    change (has_options empty_dict) with false in Hl.
    rewrite H in Hl. destruct Hl as [st ->]. simpl. eauto.
Qed.

Lemma parse_mcqs_partial_witness :
  exists qs,
    parse_mcqs (lit "intro" ++ newline ++ lit "Q: a" ++ newline ++ lit "A) x")
    = Ok qs.
Proof.
  apply (proj2 (proj2 parse_mcqs_partial)
               (lit "intro" ++ newline ++ lit "Q: a" ++ newline ++ lit "A) x")).
  reflexivity.
Defined.

(** ** Parsing formatted questions *)

Lemma strip_question_line (t : str) :
  strip t = t ->
  startswith (lit "Q:") (strip (lit "Q: " ++ t)) = true
  /\ strip (skipn 2 (strip (lit "Q: " ++ t))) = t.
Proof.
  intros Ht. destruct (strip_fixed Ht) as [Hl Hr].
  destruct t as [|c t]; [split; reflexivity|].
  assert (E : strip (lit "Q: " ++ c :: t) = lit "Q: " ++ c :: t).
  { unfold strip. change (lstrip (lit "Q: " ++ c :: t))
      with (lit "Q: " ++ c :: t).
    apply rstrip_app_fixed; [exact Hr|discriminate]. }
  rewrite E. split; [reflexivity|].
  change (skipn 2 (lit "Q: " ++ c :: t)) with (32%N :: c :: t).
  unfold strip. change (lstrip (32%N :: c :: t)) with (lstrip (c :: t)).
  now rewrite Hl.
Qed.

Lemma parse_label_line (qs : list qdict) (cur : qdict) (lab : str) :
  In lab labels ->
  parse_line (qs, cur) (lit "Correct Answer: " ++ lab)
  = Ok (qs, mk_qdict (question cur) (options cur) (Some lab)).
Proof.
  intros H. unfold labels in H. simpl in H.
  destruct H as [<-|[<-|[<-|[<-|[]]]]];
    (rewrite parse_line_answer by reflexivity; reflexivity).
Qed.

Lemma label_one_line (lab : str) : In lab labels -> ~ In 10%N lab.
Proof.
  intros H. unfold labels in H. simpl in H.
  destruct H as [<-|[<-|[<-|[<-|[]]]]]; vm_compute; intuition discriminate.
Qed.

Lemma parse_block (q : mcq) (qs : list qdict) (cur : qdict) :
  well_formed q ->
  parse_loop (qs, cur) (format_question q)
  = Ok (if dict_truthy cur then qs ++ [cur] else qs, to_dict q).
Proof.
  intros (Ht & _ & _ & Hstrip & _ & Hmark & Hlab).
  destruct (strip_question_line Ht) as [Hq Htext].
  unfold format_question. cbn [parse_loop].
  rewrite parse_line_question by exact Hq. cbn [bind].
  rewrite Htext, parse_loop_app.
  assert (Hmap : map strip (opts q) = opts q).
  { clear -Hstrip. induction Hstrip as [|o l Ho _ IH]; simpl; congruence. }
  assert (Hmark' : Forall (fun o => startswith_any option_markers (strip o) = true)
                          (opts q)).
  { clear -Hstrip Hmark. induction Hstrip as [|o l Ho _ IH]; [constructor|].
    inversion Hmark; subst. constructor; [congruence|auto]. }
  rewrite (parse_loop_options Hmark' _
             (mk_qdict (Some (text q)) (Some []) None) eq_refl).
  cbn [bind parse_loop question correct_answer app].
  rewrite Hmap, parse_label_line by exact Hlab.
  reflexivity.
Qed.

Lemma format_question_one_line (q : mcq) :
  well_formed q -> Forall (fun l => ~ In 10%N l) (format_question q).
Proof.
  intros (_ & Ht & _ & _ & Hnl & _ & Hlab).
  unfold format_question. constructor.
  - intros H. apply in_app_or in H. destruct H as [H|H]; [|now apply Ht].
    vm_compute in H. intuition discriminate.
  - apply Forall_app. split; [exact Hnl|]. constructor; [|constructor].
    intros H. apply in_app_or in H. destruct H as [H|H].
    + vm_compute in H. intuition discriminate.
    + now apply (label_one_line Hlab).
Qed.

Lemma parse_blocks (qs : list mcq) :
  forall q : mcq,
    Forall well_formed (qs ++ [q]) ->
    parse_loop initial (concat (map format_question (qs ++ [q])))
    = Ok (map to_dict qs, to_dict q).
Proof.
  induction qs as [|q' qs' IH] using rev_ind; intros q Hwf.
  - cbn [app map concat]. rewrite app_nil_r. inversion Hwf; subst.
    unfold initial. now rewrite parse_block.
  - apply Forall_app in Hwf. destruct Hwf as [Hqs Hq].
    inversion Hq; subst.
    rewrite map_app, concat_app, parse_loop_app, (IH q' Hqs).
    cbn [bind map concat]. rewrite app_nil_r.
    rewrite parse_block by assumption.
    now rewrite map_app.
Qed.

(** C6: formatting any sequence of well-formed questions in the grammar of
    the prompt and parsing the result gives back one dictionary per question,
    in order, holding exactly its text, its option lines in the order given
    and its correct-label. *)
Theorem parse_format_roundtrip (qs : list mcq) :
  Forall well_formed qs ->
  parse_mcqs (format_questions qs) = Ok (map to_dict qs).
Proof.
  intros Hwf. unfold parse_mcqs, format_questions, lines_of.
  destruct qs as [|q0 qs0] using rev_ind; [reflexivity|]. clear IHqs0.
  assert (Hlines : Forall (fun l => ~ In 10%N l)
                     (concat (map format_question (qs0 ++ [q0])))).
  { clear -Hwf. induction Hwf as [|q l Hq _ IH]; [constructor|].
    cbn [map concat]. apply Forall_app. split; [|exact IH].
    now apply format_question_one_line. }
  destruct (concat (map format_question (qs0 ++ [q0]))) as [|l ls] eqn:E.
  - exfalso. rewrite map_app, concat_app in E. simpl in E.
    destruct (concat (map format_question qs0)); discriminate.
  - unfold newline. rewrite split_join by exact Hlines.
    rewrite <- E, parse_blocks by exact Hwf.
    simpl. now rewrite map_app.
Qed.

Lemma parse_format_roundtrip_witness :
  parse_mcqs (format_questions
    [mk_mcq (lit "What is 1 + 1?")
            [lit "B) 2"; lit "A) 1"; lit "D) 4"; lit "C) 3"] (lit "B");
     mk_mcq (lit "Pick one: yes?")
            [lit "A) yes"; lit "B) no"; lit "C) maybe"; lit "D) never"]
            (lit "A")])
  = Ok [mk_qdict (Some (lit "What is 1 + 1?"))
                 (Some [lit "B) 2"; lit "A) 1"; lit "D) 4"; lit "C) 3"])
                 (Some (lit "B"));
        mk_qdict (Some (lit "Pick one: yes?"))
                 (Some [lit "A) yes"; lit "B) no"; lit "C) maybe";
                        lit "D) never"])
                 (Some (lit "A"))].
Proof.
  apply (@parse_format_roundtrip
    [mk_mcq (lit "What is 1 + 1?")
            [lit "B) 2"; lit "A) 1"; lit "D) 4"; lit "C) 3"] (lit "B");
     mk_mcq (lit "Pick one: yes?")
            [lit "A) yes"; lit "B) no"; lit "C) maybe"; lit "D) never"]
            (lit "A")]).
  repeat constructor; vm_compute; intuition discriminate.
Defined.

(** ** Scoring *)




(** The percentage is computed in doubles: the quotient is rounded before it
    is multiplied, so that one third gives 33.33333333333333 and not the
    double nearest to 100/3; three and four fifths give exactly the two
    thresholds. *)
Example percentage_double_values :
  percentage_double 1 3 = Ok 33.33333333333333%float
  /\ ((1 / 3 * 100) =? (100 / 3))%float = false
  /\ percentage_double 3 5 = Ok 60%float
  /\ percentage_double 4 5 = Ok 80%float
  /\ percentage_double 0 0 = Raise ZeroDivisionError.
Proof. repeat split; reflexivity. Qed.

(** A question whose correct-label matches no option is the malformed case:
    the scoring loop reports an error for that item, whatever was selected,
    and goes on. *)
Example unresolved_label_outcomes :
  exists r,
    score [mk_qdict (Some (lit "one")) (Some sample_options) (Some (lit "A"));
           mk_qdict (Some (lit "two")) (Some sample_options) (Some (lit "B"));
           mk_qdict (Some (lit "three")) (Some sample_options) (Some (lit "E"))]
          (Some [PyStr (lit "x"); PyStr (lit "x"); PyNone]) = Ok r
    /\ outcomes r = [Correct; Incorrect (lit "y"); LabelError]
    /\ correct_count r = 1.
Proof. eexists. split; [vm_compute; reflexivity|]. split; reflexivity. Qed.



(** ** Script runs *)

Lemma parse_line_truthy (qs qs' : list qdict) (cur cur' : qdict) (raw : str) :
  dict_truthy cur = true ->
  parse_line (qs, cur) raw = Ok (qs', cur') ->
  dict_truthy cur' = true.
Proof.
  intros Hc H. unfold parse_line in H.
  destruct (startswith (lit "Q:") (strip raw)).
  - injection H as _ <-. reflexivity.
  - destruct (startswith_any option_markers (strip raw)).
    + destruct (options cur); [|discriminate].
      injection H as _ <-. unfold dict_truthy. cbn.
      now destruct (question cur).
    + destruct (startswith (lit "Correct Answer:") (strip raw)).
      * destruct (py_index (split (lit ":") (strip raw)) 1); [|discriminate].
        cbn [bind] in H. injection H as _ <-. unfold dict_truthy. cbn.
        now destruct (question cur), (options cur).
      * injection H as _ <-. exact Hc.
Qed.

Lemma parse_loop_truthy (lines : list str) :
  forall (qs qs' : list qdict) (cur cur' : qdict),
    dict_truthy cur = true ->
    parse_loop (qs, cur) lines = Ok (qs', cur') ->
    dict_truthy cur' = true.
Proof.
  induction lines as [|raw lines IH]; intros qs qs' cur cur' Hc H.
  - injection H as _ <-. exact Hc.
  - cbn [parse_loop] in H.
    destruct (parse_line (qs, cur) raw) as [[qs1 cur1]|] eqn:E; [|discriminate].
    cbn [bind] in H.
    exact (IH _ _ _ _ (@parse_line_truthy qs qs1 cur cur1 raw Hc E) H).
Qed.

Lemma finish_truthy (qs : list qdict) (cur : qdict) :
  dict_truthy cur = true -> finish (qs, cur) <> [].
Proof.
  intros Hc. unfold finish. rewrite Hc.
  destruct qs; discriminate.
Qed.

(** X21: the parser yields zero questions exactly on the texts all of whose
    lines are skipped, that is, begin with none of ['Q:'], an option marker
    or ['Correct Answer:'] once trimmed. *)
Lemma parse_mcqs_empty_iff (mcqs_text : str) :
  parse_mcqs mcqs_text = Ok []
  <-> forallb ignored_line (lines_of mcqs_text) = true.
Proof.
  unfold parse_mcqs. generalize (lines_of mcqs_text) as lines.
  induction lines as [|raw lines IH].
  - split; reflexivity.
  - cbn [parse_loop forallb]. unfold ignored_line at 1.
    destruct (startswith (lit "Q:") (strip raw)) eqn:Hq.
    + unfold initial at 1. rewrite parse_line_question by exact Hq.
      cbn [bind andb negb]. split; [|discriminate]. clear IH.
      destruct (parse_loop _ lines) as [[qs' cur']|] eqn:E;
        [|cbn [bind]; intros H; discriminate H].
      cbn [bind]. intros H. exfalso.
      injection H as H. revert H. apply finish_truthy.
      refine (@parse_loop_truthy lines _ _ _ _ _ E). reflexivity.
    + destruct (startswith_any option_markers (strip raw)) eqn:Hm.
      * unfold initial at 1. rewrite parse_line_option by exact Hm.
        cbn. split; discriminate.
      * destruct (startswith (lit "Correct Answer:") (strip raw)) eqn:Ha.
        -- unfold initial at 1. rewrite parse_line_answer by exact Ha.
           cbn [bind andb negb]. split; [|discriminate]. clear IH.
           destruct (parse_loop _ lines) as [[qs' cur']|] eqn:E;
             [|cbn [bind]; intros H; discriminate H].
           cbn [bind]. intros H. exfalso.
           injection H as H. revert H. apply finish_truthy.
           refine (@parse_loop_truthy lines _ _ _ _ _ E). reflexivity.
        -- assert (E : parse_line initial raw = Ok initial).
           { unfold parse_line, initial. now rewrite Hq, Hm, Ha. }
           rewrite E. cbn [bind andb negb]. exact IH.
Qed.

(** C3, as stated, fails: an empty generation result is stored as an empty
    quiz without any error. *)
Lemma empty_generation_counterexample :
  ~ (forall (w : widgets) (mcqs_text : str) (st : session_state),
       parse_mcqs mcqs_text = Ok [] ->
       is_ok (run_generate w mcqs_text st) = false).
Proof.
  intros H.
  specialize (H no_widgets [] reset_state eq_refl).
  vm_compute in H. discriminate H.
Qed.

Example lone_label_line_is_a_question :
  parse_mcqs (lit "Correct Answer: A")
  = Ok [mk_qdict None None (Some (lit "A"))].
Proof. vm_compute. reflexivity. Qed.

(** C3 (amended): when the generation result parses to zero questions, the
    handler of the button raises nothing: it stores an empty question list,
    an empty answer list and [submitted = False], and the run ends normally
    without rendering a quiz or computing a score. *)
Theorem empty_generation_stored (w : widgets) (mcqs_text : str)
    (st : session_state) :
  parse_mcqs mcqs_text = Ok [] ->
  generate_clicked mcqs_text st = Ok (mk_session (Some []) (Some []) false)
  /\ run_generate w mcqs_text st
     = Ok (mk_session (Some []) (Some []) false, None).
Proof.
  intros H. unfold run_generate, generate_clicked. rewrite H.
  split; reflexivity.
Qed.

Lemma empty_generation_stored_witness :
  generate_clicked (lit "no questions here") reset_state
  = Ok (mk_session (Some []) (Some []) false)
  /\ run_generate no_widgets (lit "no questions here") reset_state
     = Ok (mk_session (Some []) (Some []) false, None).
Proof.
  apply (@empty_generation_stored no_widgets (lit "no questions here")
           reset_state).
  reflexivity.
Defined.

Lemma picks_length (pick : nat -> option nat) (qs : list qdict) (i : nat) :
  length (picks pick i qs) = length qs.
Proof. revert i; induction qs; intros i; simpl; [reflexivity|now rewrite IHqs]. Qed.

Section ListUpdate.

Variable A : Type.

Lemma firstn_after_update (l : list A) (i : nat) (v : A) :
  i <= length l ->
  firstn (S i) (firstn i l ++ v :: skipn (S i) l) = firstn i l ++ [v].
Proof.
  intros Hi. rewrite firstn_app, length_firstn, Nat.min_l by exact Hi.
  rewrite firstn_all2 by (rewrite length_firstn; lia).
  replace (S i - i) with 1 by lia. reflexivity.
Qed.

Lemma skipn_after_update (l : list A) (i k : nat) (v : A) :
  i <= length l ->
  skipn (S i + k) (firstn i l ++ v :: skipn (S i) l) = skipn (S i + k) l.
Proof.
  intros Hi. rewrite skipn_app, length_firstn, Nat.min_l by exact Hi.
  rewrite skipn_all2 by (rewrite length_firstn; lia).
  replace (S i + k - i) with (S k) by lia.
  cbn [app].
  change (skipn (S k) (v :: skipn (S i) l)) with (skipn k (skipn (S i) l)).
  rewrite skipn_skipn. f_equal. lia.
Qed.

End ListUpdate.

(** The first loop overwrites the answers of the questions it renders with
    the radio values of this run, whatever was recorded before. *)
Lemma collect_answers_spec (pick : nat -> option nat) (qs : list qdict) :
  forallb showable qs = true ->
  forall (i : nat) (a : list pyval),
    i + length qs <= length a ->
    collect_answers pick i qs (Some a)
    = Ok (Some (firstn i a ++ picks pick i qs ++ skipn (i + length qs) a)).
Proof.
  induction qs as [|q rest IH]; intros Hs i a Hlen.
  - simpl. rewrite Nat.add_0_r, firstn_skipn. reflexivity.
  - cbn [forallb] in Hs. apply andb_prop in Hs. destruct Hs as [Hq Hrest].
    cbn [length] in Hlen.
    unfold showable in Hq. cbn [collect_answers picks].
    unfold shown. unfold shown_options in *.
    destruct (question q); [|discriminate].
    destruct (options q) as [os|]; [|discriminate].
    cbn [get_key bind] in *.
    destruct (map_result display_text os) as [sh|]; [|discriminate].
    cbn [bind]. unfold set_item.
    destruct (Nat.ltb_spec i (length a)) as [_|Hge]; [|lia].
    cbn [bind].
    rewrite (IH Hrest (S i))
      by (rewrite length_app, length_firstn; cbn [length];
          rewrite length_skipn; lia).
    rewrite firstn_after_update by lia.
    rewrite skipn_after_update by lia.
    rewrite <- app_assoc. cbn [app length].
    replace (S i + length rest) with (i + S (length rest)) by lia.
    reflexivity.
Qed.

Lemma map_result_in {A B : Type} (f : A -> result B) (l : list A) (bs : list B) :
  map_result f l = Ok bs -> forall a, In a l -> exists b, f a = Ok b.
Proof.
  revert bs; induction l as [|x l IH]; intros bs H a Ha; [contradiction|].
  cbn [map_result] in H.
  destruct (f x) as [b|] eqn:Hx; [|discriminate]. cbn [bind] in H.
  destruct (map_result f l) as [bs'|]; [|discriminate].
  destruct Ha as [<-|Ha]; [eauto|]. exact (IH _ eq_refl a Ha).
Qed.

Lemma grade_ok (a : list pyval) (i : nat) (q : qdict) :
  gradable q = true -> i < length a -> exists o, grade (Some a) i q = Ok o.
Proof.
  intros Hg Hi. unfold gradable in Hg. apply andb_prop in Hg.
  destruct Hg as [Hs Hl]. unfold showable, shown_options in Hs.
  unfold has_label in Hl. unfold grade, py_index.
  destruct (question q); [|discriminate].
  destruct (correct_answer q) as [lab|]; [|discriminate].
  destruct (options q) as [os|]; [|discriminate].
  cbn [get_key bind] in *.
  destruct (nth_error a i) as [sel|] eqn:Hsel;
    [|apply nth_error_None in Hsel; lia].
  cbn [bind].
  destruct (find (startswith lab) os) as [opt|] eqn:Hf; [|eauto].
  destruct (map_result display_text os) as [sh|] eqn:Hm; [|discriminate].
  apply find_some in Hf. destruct Hf as [Hin _].
  destruct (map_result_in _ _ Hm _ Hin) as [d ->]. cbn [bind].
  destruct (truthy sel); [destruct (pyval_eqb sel d)|]; eauto.
Qed.

Lemma score_loop_ok (a : list pyval) (qs : list qdict) :
  forallb gradable qs = true ->
  forall i, i + length qs <= length a ->
  exists os, score_loop (Some a) i qs = Ok os.
Proof.
  induction qs as [|q rest IH]; intros Hg i Hlen; [simpl; eauto|].
  cbn [forallb] in Hg. apply andb_prop in Hg. destruct Hg as [Hq Hrest].
  cbn [length] in Hlen. cbn [score_loop].
  destruct (@grade_ok a i q Hq ltac:(lia)) as [o ->].
  destruct (IH Hrest (S i) ltac:(lia)) as [os ->].
  cbn [bind]. eauto.
Qed.

Lemma gradable_showable (qs : list qdict) :
  forallb gradable qs = true -> forallb showable qs = true.
Proof.
  induction qs as [|q rest IH]; [reflexivity|]. cbn [forallb].
  intros H. apply andb_prop in H. destruct H as [Hq Hrest].
  unfold gradable in Hq. apply andb_prop in Hq. destruct Hq as [-> _].
  now rewrite IH.
Qed.

Lemma collect_answers_all (pick : nat -> option nat) (qs : list qdict)
    (a : list pyval) :
  forallb showable qs = true ->
  length a = length qs ->
  collect_answers pick 0 qs (Some a) = Ok (Some (picks pick 0 qs)).
Proof.
  intros Hs Hlen.
  rewrite (@collect_answers_spec pick qs Hs 0 a) by (simpl; lia).
  cbn [firstn app Nat.add].
  rewrite skipn_all2 by lia. now rewrite app_nil_r.
Qed.

Lemma score_ok (q : qdict) (qs : list qdict) (a : list pyval) :
  forallb gradable (q :: qs) = true ->
  length a = length (q :: qs) ->
  exists rp, score (q :: qs) (Some a) = Ok rp.
Proof.
  intros Hg Hlen. unfold score.
  destruct (@score_loop_ok a (q :: qs) Hg 0 ltac:(simpl in *; lia)) as [os ->].
  cbn [bind]. unfold percentage, percentage_double.
  cbn [length Nat.eqb bind]. eauto.
Qed.

(** C4, as stated, fails: a selection made after submission is stored and
    scored, and a run before submission ends normally without a score. *)
Lemma select_after_submit_counterexample :
  (exists st' rp,
     display_mcqs (mk_widgets (fun _ => Some 1) false false)
                  (mk_session (Some [sample_question])
                              (Some [PyStr (lit "x")]) true)
     = Ok (st', Some rp)
     /\ answers st' = Some [PyStr (lit "y")]
     /\ outcomes rp = [Incorrect (lit "x")])
  /\ display_mcqs no_widgets
                  (mk_session (Some [sample_question]) (Some [PyStr []]) false)
     = Ok (mk_session (Some [sample_question]) (Some [PyNone]) false, None).
Proof.
  split.
  - eexists. eexists. split; [vm_compute; reflexivity|].
    split; reflexivity.
  - vm_compute. reflexivity.
Qed.

(** C4 (amended): the session state does not guard the operations.  In a run
    of a session whose questions can be rendered and graded, the radio values
    of the run overwrite the answer records whether or not the session was
    submitted; once submitted, the run ends normally with the score computed
    from the overwritten answers and stays submitted; before submission, and
    without the submit button, the run ends normally and shows no score. *)
Theorem session_state_unguarded (w : widgets) (q : qdict) (qs : list qdict)
    (a : list pyval) :
  forallb gradable (q :: qs) = true ->
  length a = length (q :: qs) ->
  start_again w = false ->
  (exists rp,
     score (q :: qs) (Some (picks (radio w) 0 (q :: qs))) = Ok rp
     /\ display_mcqs w (mk_session (Some (q :: qs)) (Some a) true)
        = Ok (mk_session (Some (q :: qs))
                         (Some (picks (radio w) 0 (q :: qs))) true,
              Some rp))
  /\ (submit_button w = false ->
      display_mcqs w (mk_session (Some (q :: qs)) (Some a) false)
      = Ok (mk_session (Some (q :: qs))
                       (Some (picks (radio w) 0 (q :: qs))) false,
            None)).
Proof.
  intros Hg Hlen Hstart.
  pose proof (@gradable_showable _ Hg) as Hs.
  assert (Hlen' : length (picks (radio w) 0 (q :: qs)) = length (q :: qs))
    by apply picks_length.
  destruct (@score_ok q qs _ Hg Hlen') as [rp Hrp].
  split.
  - exists rp. split; [exact Hrp|].
    unfold display_mcqs. cbn [questions answers submitted].
    rewrite (@collect_answers_all (radio w) (q :: qs) a Hs Hlen).
    cbn [bind]. destruct (submit_button w);
      rewrite Hrp; cbn [bind snd]; now rewrite Hstart.
  - intros Hsub. unfold display_mcqs. cbn [questions answers submitted].
    rewrite (@collect_answers_all (radio w) (q :: qs) a Hs Hlen).
    cbn [bind]. rewrite Hsub. cbn [bind snd]. now rewrite Hstart.
Qed.

Lemma session_state_unguarded_witness :
  (exists rp,
     score [sample_question]
           (Some (picks (fun _ => Some 1) 0 [sample_question])) = Ok rp
     /\ display_mcqs (mk_widgets (fun _ => Some 1) false false)
                     (mk_session (Some [sample_question])
                                 (Some [PyStr (lit "x")]) true)
        = Ok (mk_session (Some [sample_question])
                         (Some (picks (fun _ => Some 1) 0 [sample_question]))
                         true,
              Some rp))
  /\ (false = false ->
      display_mcqs (mk_widgets (fun _ => Some 1) false false)
                   (mk_session (Some [sample_question])
                               (Some [PyStr (lit "x")]) false)
      = Ok (mk_session (Some [sample_question])
                       (Some (picks (fun _ => Some 1) 0 [sample_question]))
                       false,
            None)).
Proof.
  apply (@session_state_unguarded (mk_widgets (fun _ => Some 1) false false)
           sample_question [] [PyStr (lit "x")]); reflexivity.
Defined.

(** A whole session: generation, then a run in which two answers are picked
    and the submit button is pressed. *)
Example session_end_to_end :
  exists st1 st2 rp,
    run_generate no_widgets sample_text reset_state = Ok (st1, None)
    /\ display_mcqs (mk_widgets sample_picks true false) st1 = Ok (st2, Some rp)
    /\ answers st2 = Some [PyStr (lit "x"); PyStr (lit "x"); PyNone]
    /\ submitted st2 = true
    /\ outcomes rp = [Correct; Incorrect (lit "y"); Unanswered]
    /\ correct_count rp = 1
    /\ total_questions rp = 3.
Proof.
  do 3 eexists.
  split; [vm_compute; reflexivity|].
  split; [vm_compute; reflexivity|].
  repeat split; reflexivity.
Qed.

(** A text without any ['Q:'] line can still yield a dictionary, which then
    cannot be rendered. *)
Example lone_label_line_cannot_be_rendered :
  run_generate no_widgets (lit "Correct Answer: A") reset_state
  = Raise KeyError.
Proof. vm_compute. reflexivity. Qed.

(** ** Video identifiers *)

Example extract_watch_url :
  extract_video_id (lit "https://www.youtube.com/watch?v=dQw4w9WgXcQ&t=10s")
  = Ok (Some (lit "dQw4w9WgXcQ")).
Proof. vm_compute. reflexivity. Qed.

Example extract_short_url :
  extract_video_id (lit "youtu.be/dQw4w9WgXcQ") = Ok (Some (lit "dQw4w9WgXcQ")).
Proof. vm_compute. reflexivity. Qed.

Example extract_mobile_url :
  extract_video_id (lit "https://m.youtube.com/watch?v=dQw4w9WgXcQ") = Ok None.
Proof. vm_compute. reflexivity. Qed.

Lemma then_in (ms : list rmatch1) (k : str -> list rmatch1)
    (w s' : str) (g : list str) :
  In (w, s', g) (then_ ms k) ->
  exists w1 s1 g1 w2 g2,
    In (w1, s1, g1) ms /\ In (w2, s', g2) (k s1)
    /\ w = w1 ++ w2 /\ g = g1 ++ g2.
Proof.
  unfold then_. intros H. apply in_flat_map in H.
  destruct H as [[[w1 s1] g1] [H1 H2]].
  apply in_map_iff in H2. destruct H2 as [[[w2 s2] g2] [E H2]].
  injection E as <- <- <-.
  exists w1, s1, g1, w2, g2. auto.
Qed.

Lemma rmatch_rep_S (n : nat) (r : regex) (s : str) :
  rmatch (RRep (S n) r) s = then_ (rmatch r s) (rmatch (RRep n r)).
Proof. reflexivity. Qed.

Lemma rmatch_lit_in (p s w s' : str) (g : list str) :
  In (w, s', g) (rmatch (rlit p) s) -> w = p /\ s = p ++ s' /\ g = [].
Proof.
  revert s w g; induction p as [|c p IH]; intros s w g H.
  - cbn in H. destruct H as [H|[]]. now injection H as <- <- <-.
  - cbn [rlit rmatch] in H. apply then_in in H.
    destruct H as (w1 & s1 & g1 & w2 & g2 & H1 & H2 & -> & ->).
    destruct s as [|x s]; [contradiction|].
    destruct (N.eqb_spec x c) as [->|_]; [|contradiction].
    destruct H1 as [H1|[]]. injection H1 as <- <- <-.
    destruct (IH _ _ _ H2) as (-> & -> & ->). auto.
Qed.

Lemma rmatch_rep_class_in (cl : list (char * char)) (n : nat) :
  forall (s w s' : str) (g : list str),
    In (w, s', g) (rmatch (RRep n (RClass cl)) s) ->
    length w = n /\ forallb (in_class cl) w = true /\ s = w ++ s' /\ g = [].
Proof.
  induction n as [|n IH]; intros s w s' g H.
  - cbn in H. destruct H as [H|[]]. now injection H as <- <- <-.
  - rewrite rmatch_rep_S in H. apply then_in in H.
    destruct H as (w1 & s1 & g1 & w2 & g2 & H1 & H2 & -> & ->).
    cbn [rmatch] in H1. destruct s as [|x s]; [contradiction|].
    destruct (in_class cl x) eqn:Hx; [|contradiction].
    destruct H1 as [H1|[]]. injection H1 as <- <- <-.
    destruct (IH _ _ _ _ H2) as (Hlen & Hall & -> & ->).
    cbn. rewrite Hx, Hall, Hlen. auto.
Qed.

Lemma rmatch_scheme_in (s w s' : str) (g : list str) :
  In (w, s', g) (rmatch scheme_opt s) ->
  In w schemes /\ s = w ++ s' /\ g = [].
Proof.
  unfold scheme_opt. cbn [rmatch]. intros H. apply in_app_or in H.
  destruct H as [H|[H|[]]].
  - apply then_in in H.
    destruct H as (w1 & s1 & g1 & w2 & g2 & H1 & H2 & Hw & Hg).
    apply rmatch_lit_in in H1. destruct H1 as (Hw1 & Hs & Hg1).
    apply then_in in H2.
    destruct H2 as (w3 & s3 & g3 & w4 & g4 & H3 & H4 & Hw2 & Hg2).
    apply rmatch_lit_in in H4. destruct H4 as (Hw4 & Hs3 & Hg4).
    apply in_app_or in H3. destruct H3 as [H3|[H3|[]]].
    + destruct s1 as [|x s1]; [contradiction|].
      destruct (N.eqb_spec x 115%N) as [Hx|_]; [|contradiction].
      destruct H3 as [H3|[]]. injection H3 as E1 E2 E3. subst.
      split; [right; right; left; reflexivity|]. now split.
    + injection H3 as E1 E2 E3. subst.
      split; [right; left; reflexivity|]. now split.
  - injection H as E1 E2 E3. subst. split; [left; reflexivity|]. now split.
Qed.

Lemma rmatch_www_in (s w s' : str) (g : list str) :
  In (w, s', g) (rmatch www_opt s) -> In w wwws /\ s = w ++ s' /\ g = [].
Proof.
  unfold www_opt. cbn [rmatch]. intros H. apply in_app_or in H.
  destruct H as [H|[H|[]]].
  - apply rmatch_lit_in in H. destruct H as (-> & -> & ->).
    split; [right; left; reflexivity|]. now split.
  - injection H as <- <- <-. split; [left; reflexivity|]. now split.
Qed.

Lemma rmatch_seq (r1 r2 : regex) (s : str) :
  rmatch (RSeq r1 r2) s = then_ (rmatch r1 s) (rmatch r2).
Proof. reflexivity. Qed.

Lemma rmatch_group (r : regex) (s : str) :
  rmatch (RGroup r) s
  = map (fun m => let '(w, s1, g) := m in (w, s1, w :: g)) (rmatch r s).
Proof. reflexivity. Qed.

Lemma rmatch_pattern_in (h s w s' : str) (g : list str) :
  In (w, s', g)
     (rmatch (RSeq scheme_opt (RSeq www_opt (RSeq (rlit h) id_group))) s) ->
  exists sch ww id,
    In sch schemes /\ In ww wwws
    /\ length id = 11 /\ forallb id_char id = true
    /\ s = sch ++ ww ++ h ++ id ++ s' /\ g = [id].
Proof.
  rewrite rmatch_seq. intros H. apply then_in in H.
  destruct H as (w1 & s1 & g1 & w2 & g2 & H1 & H2 & Hw & Hg).
  apply rmatch_scheme_in in H1. destruct H1 as (Hsch & Hs & Hg1).
  rewrite rmatch_seq in H2. apply then_in in H2.
  destruct H2 as (w3 & s3 & g3 & w4 & g4 & H3 & H4 & Hw2 & Hg2).
  apply rmatch_www_in in H3. destruct H3 as (Hww & Hs1 & Hg3).
  rewrite rmatch_seq in H4. apply then_in in H4.
  destruct H4 as (w5 & s5 & g5 & w6 & g6 & H5 & H6 & Hw4 & Hg4).
  apply rmatch_lit_in in H5. destruct H5 as (Hw5 & Hs3 & Hg5).
  unfold id_group in H6. rewrite rmatch_group in H6.
  apply in_map_iff in H6. destruct H6 as [[[w7 s7] g7] [E H7]].
  injection E as E1 E2 E3.
  apply rmatch_rep_class_in in H7. destruct H7 as (Hlen & Hall & Hs5 & Hg7).
  exists w1, w3, w7. subst. cbn [app]. auto 10.
Qed.

Lemma re_match_pattern (h s : str) (g : list str) :
  re_match (RSeq scheme_opt (RSeq www_opt (RSeq (rlit h) id_group))) s = Some g ->
  exists sch ww id rest,
    In sch schemes /\ In ww wwws
    /\ length id = 11 /\ forallb id_char id = true
    /\ s = sch ++ ww ++ h ++ id ++ rest /\ g = [id].
Proof.
  unfold re_match.
  destruct (rmatch _ s) as [|[[w s'] g'] ms] eqn:E; [discriminate|].
  intros H. injection H as ->.
  destruct (@rmatch_pattern_in h s w s' g) as (sch & ww & id & H).
  { rewrite E. now left. }
  exists sch, ww, id, s'. exact H.
Qed.

(** X1: [extract_video_id] raises nothing; it returns [None], or the URL is
    an optional scheme [http://] or [https://], an optional [www.], then
    [youtube.com/watch?v=] or [youtu.be/], then eleven characters among
    letters, digits, [_] and [-], then anything, and those eleven characters
    are returned. *)
Theorem extract_video_id_shape (url : str) :
  extract_video_id url = Ok None
  \/ exists sch ww h id rest,
       In sch schemes /\ In ww wwws /\ In h hosts
       /\ length id = 11 /\ forallb id_char id = true
       /\ url = sch ++ ww ++ h ++ id ++ rest
       /\ extract_video_id url = Ok (Some id).
Proof.
  unfold extract_video_id, patterns. cbn [first_match].
  destruct (re_match pattern_watch url) as [g|] eqn:E1.
  - right. apply re_match_pattern in E1.
    destruct E1 as (sch & ww & id & rest & H1 & H2 & H3 & H4 & H5 & ->).
    exists sch, ww, (lit "youtube.com/watch?v="), id, rest.
    repeat (split; [first [assumption | now left]|]). reflexivity.
  - destruct (re_match pattern_short url) as [g|] eqn:E2; [|now left].
    right. apply re_match_pattern in E2.
    destruct E2 as (sch & ww & id & rest & H1 & H2 & H3 & H4 & H5 & ->).
    exists sch, ww, (lit "youtu.be/"), id, rest.
    repeat (split; [first [assumption | now right; left]|]). reflexivity.
Qed.

Lemma rmatch_class_cons (cl : list (char * char)) (x : char) (s : str) :
  rmatch (RClass cl) (x :: s) = if in_class cl x then [([x], s, [])] else [].
Proof. reflexivity. Qed.

Lemma rmatch_char_cons (c x : char) (s : str) :
  rmatch (RChar c) (x :: s) = if (x =? c)%N then [([x], s, [])] else [].
Proof. reflexivity. Qed.

Lemma rmatch_opt (r : regex) (s : str) :
  rmatch (ROpt r) s = rmatch r s ++ [([], s, [])].
Proof. reflexivity. Qed.

Lemma then_cons (m : rmatch1) (ms : list rmatch1) (k : str -> list rmatch1) :
  then_ (m :: ms) k
  = map (fun m2 => let '(w2, s2, g2) := m2 in
                   (fst (fst m) ++ w2, s2, snd m ++ g2))
        (k (snd (fst m)))
    ++ then_ ms k.
Proof. destruct m as [[w1 s1] g1]. reflexivity. Qed.

Lemma then_nil (k : str -> list rmatch1) : then_ [] k = [].
Proof. reflexivity. Qed.

Lemma rmatch_rep_class_ok (cl : list (char * char)) (w : str) :
  forall rest : str,
    forallb (in_class cl) w = true ->
    rmatch (RRep (length w) (RClass cl)) (w ++ rest) = [(w, rest, [])].
Proof.
  induction w as [|c w IH]; intros rest H.
  - reflexivity.
  - cbn [forallb] in H. apply andb_prop in H. destruct H as [Hc Hw].
    cbn [length app]. rewrite rmatch_rep_S, rmatch_class_cons, Hc.
    rewrite then_cons, then_nil. cbn [fst snd].
    rewrite (IH rest Hw). reflexivity.
Qed.

Lemma rmatch_id_group_ok (id rest : str) :
  length id = 11 ->
  forallb id_char id = true ->
  rmatch id_group (id ++ rest) = [(id, rest, [id])].
Proof.
  intros Hlen Hall. unfold id_group. rewrite rmatch_group, <- Hlen.
  rewrite (rmatch_rep_class_ok id_ranges id rest Hall). reflexivity.
Qed.

Lemma rmatch_lit_ok (p s : str) : rmatch (rlit p) (p ++ s) = [(p, s, [])].
Proof.
  induction p as [|c p IH]; [reflexivity|].
  cbn [rlit app]. rewrite rmatch_seq, rmatch_char_cons, N.eqb_refl.
  rewrite then_cons, then_nil. cbn [fst snd]. rewrite IH. reflexivity.
Qed.

Lemma rmatch_lit_fail (p s : str) :
  startswith p s = false -> rmatch (rlit p) s = [].
Proof.
  revert s; induction p as [|c p IH]; intros s H; [discriminate|].
  cbn [rlit]. rewrite rmatch_seq.
  destruct s as [|x s]; [reflexivity|].
  rewrite rmatch_char_cons.
  cbn [startswith] in H. rewrite N.eqb_sym.
  destruct (c =? x)%N; [|reflexivity].
  cbn [andb] in H. rewrite then_cons, then_nil. cbn [fst snd].
  now rewrite (IH s H).
Qed.

Lemma rmatch_host_ok (h id rest : str) :
  length id = 11 ->
  forallb id_char id = true ->
  rmatch (RSeq (rlit h) id_group) (h ++ id ++ rest) = [(h ++ id, rest, [id])].
Proof.
  intros Hlen Hall.
  rewrite rmatch_seq, rmatch_lit_ok, then_cons, then_nil. cbn [fst snd].
  rewrite (rmatch_id_group_ok id rest Hlen Hall). reflexivity.
Qed.

Lemma rmatch_www_ok (ww h id rest : str) :
  In ww wwws -> In h hosts ->
  length id = 11 ->
  forallb id_char id = true ->
  exists ms,
    rmatch (RSeq www_opt (RSeq (rlit h) id_group)) (ww ++ h ++ id ++ rest)
    = (ww ++ h ++ id, rest, [id]) :: ms.
Proof.
  intros Hww Hh Hlen Hall.
  pose proof (rmatch_host_ok h id rest Hlen Hall) as Hhost.
  rewrite rmatch_seq. unfold www_opt. rewrite rmatch_opt.
  destruct Hww as [<-|[<-|[]]].
  - cbn [app]. rewrite rmatch_lit_fail
      by (destruct Hh as [<-|[<-|[]]]; reflexivity).
    cbn [app]. rewrite then_cons, then_nil. cbn [fst snd].
    rewrite Hhost. cbn [map app]. eauto.
  - rewrite rmatch_lit_ok. cbn [app]. rewrite then_cons. cbn [fst snd].
    rewrite Hhost. cbn [map app]. eauto.
Qed.

(** The preferred match of a pattern on a URL of the accepted shape. *)
Lemma re_match_accepts (sch ww h id rest : str) :
  In sch schemes -> In ww wwws -> In h hosts ->
  length id = 11 ->
  forallb id_char id = true ->
  re_match (RSeq scheme_opt (RSeq www_opt (RSeq (rlit h) id_group)))
           (sch ++ ww ++ h ++ id ++ rest)
  = Some [id].
Proof.
  intros Hsch Hww Hh Hlen Hall.
  destruct (@rmatch_www_ok ww h id rest Hww Hh Hlen Hall) as [ms Hwww].
  unfold re_match. rewrite rmatch_seq. unfold scheme_opt. rewrite rmatch_opt.
  destruct Hsch as [<-|[<-|[<-|[]]]].
  - cbn [app]. rewrite rmatch_seq, rmatch_lit_fail.
    + rewrite then_nil. cbn [app]. rewrite then_cons. cbn [fst snd].
      rewrite Hwww. reflexivity.
    + destruct Hww as [<-|[<-|[]]]; [|reflexivity].
      destruct Hh as [<-|[<-|[]]]; reflexivity.
  - rewrite rmatch_seq.
    change (lit "http://" ++ ww ++ h ++ id ++ rest)
      with (lit "http" ++ lit "://" ++ ww ++ h ++ id ++ rest).
    rewrite rmatch_lit_ok, then_cons, then_nil. cbn [fst snd].
    rewrite rmatch_seq, rmatch_opt.
    change (lit "://" ++ ww ++ h ++ id ++ rest)
      with (58%N :: lit "//" ++ ww ++ h ++ id ++ rest).
    rewrite rmatch_char_cons.
    change (58 =? 115)%N with false. cbn [app].
    rewrite then_cons, then_nil. cbn [fst snd].
    change (58%N :: lit "//" ++ ww ++ h ++ id ++ rest)
      with (lit "://" ++ ww ++ h ++ id ++ rest).
    rewrite rmatch_lit_ok. cbn [map app].
    rewrite then_cons. cbn [fst snd]. rewrite Hwww. reflexivity.
  - rewrite rmatch_seq.
    change (lit "https://" ++ ww ++ h ++ id ++ rest)
      with (lit "http" ++ 115%N :: lit "://" ++ ww ++ h ++ id ++ rest).
    rewrite rmatch_lit_ok, then_cons, then_nil. cbn [fst snd].
    rewrite rmatch_seq, rmatch_opt, rmatch_char_cons, N.eqb_refl.
    cbn [app]. rewrite then_cons. cbn [fst snd].
    rewrite rmatch_lit_ok. cbn [map app].
    rewrite then_cons. cbn [fst snd]. rewrite Hwww. reflexivity.
Qed.

Lemma re_match_watch_on_short (sch ww id rest : str) :
  In sch schemes -> In ww wwws ->
  re_match pattern_watch (sch ++ ww ++ lit "youtu.be/" ++ id ++ rest) = None.
Proof.
  intros Hsch Hww.
  destruct (re_match pattern_watch _) as [g|] eqn:E; [exfalso|reflexivity].
  apply re_match_pattern in E.
  destruct E as (sch' & ww' & id' & rest' & Hsch' & Hww' & _ & _ & E & _).
  destruct Hsch as [<-|[<-|[<-|[]]]];
    destruct Hww as [<-|[<-|[]]];
    destruct Hsch' as [<-|[<-|[<-|[]]]];
    destruct Hww' as [<-|[<-|[]]];
    discriminate E.
Qed.

(** X2: for every URL made of an optional scheme [http://] or [https://], an
    optional [www.], [youtube.com/watch?v=] or [youtu.be/], eleven
    identifier characters and any further text, [extract_video_id] returns
    exactly those eleven characters; what follows them is not looked at. *)
Theorem extract_video_id_accepts (sch ww h id rest : str) :
  In sch schemes -> In ww wwws -> In h hosts ->
  length id = 11 ->
  forallb id_char id = true ->
  extract_video_id (sch ++ ww ++ h ++ id ++ rest) = Ok (Some id).
Proof.
  intros Hsch Hww Hh Hlen Hall.
  unfold extract_video_id, patterns. cbn [first_match].
  destruct Hh as [<-|[<-|[]]].
  - unfold pattern_watch.
    rewrite (@re_match_accepts sch ww (lit "youtube.com/watch?v=") id rest)
      by (try assumption; now left).
    reflexivity.
  - rewrite (@re_match_watch_on_short sch ww id rest Hsch Hww).
    unfold pattern_short.
    rewrite (@re_match_accepts sch ww (lit "youtu.be/") id rest)
      by (try assumption; now right; left).
    reflexivity.
Qed.

Lemma extract_video_id_accepts_witness :
  extract_video_id (lit "http://" ++ lit "www." ++ lit "youtu.be/"
                    ++ lit "abc_DEF-123" ++ lit "4?t=1")
  = Ok (Some (lit "abc_DEF-123")).
Proof.
  apply (@extract_video_id_accepts (lit "http://") (lit "www.")
           (lit "youtu.be/") (lit "abc_DEF-123") (lit "4?t=1"));
    vm_compute; auto.
Defined.

(** ** Downloading the transcript *)

Section DownloadFacts.

Variable Transcript : Type.
Variable transcript_truthy : Transcript -> bool.
Variable format_transcript : Transcript -> result str.
Variable list_transcripts : str -> result (list (result Transcript)).

Lemma fetch_first_skips (fails rest : list (result Transcript))
    (t : Transcript) :
  forallb is_raise fails = true ->
  fetch_first (fails ++ Ok t :: rest) = (Some t, S (length fails)).
Proof.
  induction fails as [|o fails IH]; intros H; [reflexivity|].
  cbn [forallb] in H. apply andb_prop in H. destruct H as [Ho Hf].
  destruct o as [x|e]; [discriminate|].
  cbn [app fetch_first length]. now rewrite (IH Hf).
Qed.

Lemma fetch_first_none (objs : list (result Transcript)) :
  forallb is_raise objs = true ->
  fetch_first objs = (None, length objs).
Proof.
  induction objs as [|o objs IH]; intros H; [reflexivity|].
  cbn [forallb] in H. apply andb_prop in H. destruct H as [Ho Hf].
  destruct o as [x|e]; [discriminate|].
  cbn [fetch_first length]. now rewrite (IH Hf).
Qed.

Lemma extract_video_id_ok (url : str) :
  extract_video_id url = Ok None
  \/ exists id, extract_video_id url = Ok (Some id) /\ length id = 11.
Proof.
  unfold extract_video_id, patterns. cbn [first_match].
  destruct (re_match pattern_watch url) as [g|] eqn:E1.
  - right. apply re_match_pattern in E1.
    destruct E1 as (sch & ww & id & rest & _ & _ & Hlen & _ & _ & ->).
    exists id. now split.
  - destruct (re_match pattern_short url) as [g|] eqn:E2; [|now left].
    right. apply re_match_pattern in E2.
    destruct E2 as (sch & ww & id & rest & _ & _ & Hlen & _ & _ & ->).
    exists id. now split.
Qed.

Lemma download_returns (video_url : str) :
  exists run,
    download_youtube_transcript transcript_truthy format_transcript
      list_transcripts video_url = Ok run
    /\ ((exists s, returned run = Some s /\ errors run = [])
        \/ (returned run = None /\ length (errors run) = 1))
    /\ (listed run = [] /\ fetched run = 0
        \/ exists id, listed run = [id] /\ length id = 11
                      /\ extract_video_id video_url = Ok (Some id)).
Proof.
  unfold download_youtube_transcript.
  destruct (extract_video_id_ok video_url) as [E|[id [E Hlen]]]; rewrite E.
  - cbn. eexists. split; [reflexivity|]. cbn. auto.
  - cbn [bind]. destruct id as [|c id]; [discriminate|].
    destruct (list_transcripts (c :: id)) as [objs|e].
    + destruct (fetch_first objs) as [[t|] n].
      * destruct (transcript_truthy t).
        -- destruct (format_transcript t) as [s|e];
             (eexists; split; [reflexivity|]; cbn; split; eauto 6).
        -- eexists; split; [reflexivity|]; cbn; split; eauto 6.
      * eexists; split; [reflexivity|]; cbn; split; eauto 6.
    + eexists; split; [reflexivity|]; cbn; split; eauto 6.
Qed.

(** X3: what a call of [download_youtube_transcript] that returns has done,
    when the collaborators fail with exceptions that [except Exception]
    catches: it has returned a text and shown no message, or it has returned
    [None] and shown exactly one error message; it has asked for the
    transcripts of at most one video, and only with an eleven-character id
    taken from the URL. *)
Theorem download_outcome_shape (video_url : str) (run : download_run) :
  download_youtube_transcript transcript_truthy format_transcript
    list_transcripts video_url = Ok run ->
  ((exists s, returned run = Some s /\ errors run = [])
   \/ (returned run = None /\ length (errors run) = 1))
  /\ (listed run = [] /\ fetched run = 0
      \/ exists id, listed run = [id] /\ length id = 11
                    /\ extract_video_id video_url = Ok (Some id)).
Proof.
  intros H. destruct (download_returns video_url) as (run' & E & Hshape).
  rewrite E in H. injection H as <-. exact Hshape.
Qed.

(** X4: when the URL carries a video id, the first transcript object whose
    [fetch()] succeeds decides the outcome: the objects before it are each
    fetched once and their failures skipped, the objects after it are never
    fetched, and the call returns the formatted text of that transcript, or
    [None] with a message when that transcript is empty or cannot be
    formatted. *)
Theorem download_first_fetched (video_url id : str)
    (fails rest : list (result Transcript)) (t : Transcript) :
  extract_video_id video_url = Ok (Some id) ->
  list_transcripts id = Ok (fails ++ Ok t :: rest) ->
  forallb is_raise fails = true ->
  download_youtube_transcript transcript_truthy format_transcript
    list_transcripts video_url
  = Ok (if transcript_truthy t then
          match format_transcript t with
          | Ok formatted =>
              mk_download (Some formatted) [] [id] (S (length fails))
          | Raise e =>
              mk_download None [ErrorOccurred e] [id] (S (length fails))
          end
        else mk_download None [NotAvailable] [id] (S (length fails))).
Proof.
  intros Hid Hlist Hfails.
  unfold download_youtube_transcript. rewrite Hid. cbn [bind].
  destruct (extract_video_id_ok video_url) as [E|[id' [E Hlen]]];
    rewrite E in Hid; [discriminate|].
  injection Hid as ->.
  destruct id as [|c id]; [discriminate|].
  rewrite Hlist, (fetch_first_skips fails rest t Hfails).
  destruct (transcript_truthy t); [|reflexivity].
  destruct (format_transcript t); reflexivity.
Qed.

(** X5: when the URL carries a video id and every [fetch()] fails (or the
    video has no transcript object), every object is fetched once and the
    call returns [None] with the message that no transcript is available. *)
Theorem download_all_fail (video_url id : str)
    (objs : list (result Transcript)) :
  extract_video_id video_url = Ok (Some id) ->
  list_transcripts id = Ok objs ->
  forallb is_raise objs = true ->
  download_youtube_transcript transcript_truthy format_transcript
    list_transcripts video_url
  = Ok (mk_download None [NotAvailable] [id] (length objs)).
Proof.
  intros Hid Hlist Hfails.
  unfold download_youtube_transcript. rewrite Hid. cbn [bind].
  destruct (extract_video_id_ok video_url) as [E|[id' [E Hlen]]];
    rewrite E in Hid; [discriminate|].
  injection Hid as ->.
  destruct id as [|c id]; [discriminate|].
  rewrite Hlist, (fetch_first_none objs Hfails). reflexivity.
Qed.

End DownloadFacts.

Lemma download_outcome_shape_witness :
  ((exists s,
      returned (mk_download None [ErrorOccurred BackendError]
                            [lit "abc_DEF-123"] 0) = Some s
      /\ errors (mk_download None [ErrorOccurred BackendError]
                             [lit "abc_DEF-123"] 0) = [])
   \/ (returned (mk_download None [ErrorOccurred BackendError]
                             [lit "abc_DEF-123"] 0) = None
       /\ length (errors (mk_download None [ErrorOccurred BackendError]
                                      [lit "abc_DEF-123"] 0)) = 1))
  /\ (listed (mk_download None [ErrorOccurred BackendError]
                          [lit "abc_DEF-123"] 0) = []
      /\ fetched (mk_download None [ErrorOccurred BackendError]
                              [lit "abc_DEF-123"] 0) = 0
      \/ exists id,
           listed (mk_download None [ErrorOccurred BackendError]
                               [lit "abc_DEF-123"] 0) = [id]
           /\ length id = 11
           /\ extract_video_id (lit "youtu.be/abc_DEF-123") = Ok (Some id)).
Proof.
  apply (@download_outcome_shape str
           (fun t : str => negb (str_eqb t [])) (fun t => Ok t)
           (fun _ => Raise BackendError)
           (lit "youtu.be/abc_DEF-123")
           (mk_download None [ErrorOccurred BackendError]
                        [lit "abc_DEF-123"] 0)).
  reflexivity.
Defined.

Lemma download_first_fetched_witness :
  download_youtube_transcript
    (fun t : str => negb (str_eqb t [])) (fun t => Ok t)
    (fun _ => Ok [Raise BackendError; Ok (lit "hello"); Raise BackendError])
    (lit "youtu.be/abc_DEF-123")
  = Ok (mk_download (Some (lit "hello")) [] [lit "abc_DEF-123"] 2).
Proof.
  apply (@download_first_fetched str
           (fun t : str => negb (str_eqb t [])) (fun t => Ok t)
           (fun _ => Ok [Raise BackendError; Ok (lit "hello");
                         Raise BackendError])
           (lit "youtu.be/abc_DEF-123") (lit "abc_DEF-123")
           [Raise BackendError] [Raise BackendError] (lit "hello"));
    reflexivity.
Defined.

Lemma download_all_fail_witness :
  download_youtube_transcript
    (fun t : str => negb (str_eqb t [])) (fun t => Ok t)
    (fun _ => Ok [Raise BackendError; Raise KeyError])
    (lit "youtu.be/abc_DEF-123")
  = Ok (mk_download None [NotAvailable] [lit "abc_DEF-123"] 2).
Proof.
  apply (@download_all_fail str
           (fun t : str => negb (str_eqb t [])) (fun t => Ok t)
           (fun _ => Ok [Raise BackendError; Raise KeyError])
           (lit "youtu.be/abc_DEF-123") (lit "abc_DEF-123")
           [Raise BackendError; Raise KeyError]);
    reflexivity.
Defined.

(** ** Translating in chunks *)

Lemma chunk_count_formula (n size : nat) :
  0 < size ->
  (if 0 <? n then (n - 0 - 1) / size + 1 else 0) = (n + size - 1) / size.
Proof.
  intros Hs. destruct (Nat.ltb_spec 0 n) as [Hn|Hn].
  - replace (n + size - 1) with (n - 1 + 1 * size) by lia.
    rewrite Nat.div_add by lia. now rewrite Nat.sub_0_r.
  - replace n with 0 by lia. cbn [Nat.add]. symmetry.
    apply Nat.div_small. lia.
Qed.

Lemma split_chunks_concat (size : nat) (text : str) :
  0 < size ->
  exists chunks,
    split_chunks size text = Ok chunks
    /\ concat chunks = text
    /\ length chunks = (length text + size - 1) / size.
Proof.
  intros Hs. rewrite (split_chunks_eq text Hs).
  eexists. split; [reflexivity|].
  rewrite length_map, length_seq, concat_pieces.
  split; [|now apply chunk_count_formula].
  apply firstn_all2.
  destruct (Nat.ltb_spec 0 (length text)) as [Hn|Hn]; [|lia].
  rewrite Nat.sub_0_r. now apply chunk_count_covers.
Qed.

Section TranslateFacts.

Variable GoogleTranslator : str -> result unit.
Variable backend : str -> list str -> str -> result str.
Variable dest_language : str.

Lemma translate_all_ok (chunks : list str) :
  forall (log log' : list str) (ts : list str),
    translate_all backend dest_language log chunks = (log', Ok ts) ->
    log' = log ++ chunks
    /\ length ts = length chunks
    /\ forall k, k < length chunks ->
         backend dest_language (log ++ firstn k chunks) (nth k chunks [])
         = Ok (nth k ts []).
Proof.
  induction chunks as [|c chunks IH]; intros log log' ts H.
  - injection H as <- <-. rewrite app_nil_r.
    split; [reflexivity|]. split; [reflexivity|]. intros k Hk. inversion Hk.
  - cbn [translate_all] in H.
    destruct (backend dest_language log c) as [t|e] eqn:Hc; [|discriminate].
    destruct (translate_all backend dest_language (log ++ [c]) chunks)
      as [log1 [ts1|e]] eqn:E; [|discriminate].
    injection H as <- <-.
    destruct (IH _ _ _ E) as (-> & Hlen & Hk).
    rewrite <- app_assoc. split; [reflexivity|].
    split; [simpl; now rewrite Hlen|].
    intros [|k] Hlt.
    + cbn [firstn nth]. now rewrite app_nil_r.
    + cbn [firstn nth]. cbn [length] in Hlt.
      specialize (Hk k ltac:(lia)). rewrite <- app_assoc in Hk. exact Hk.
Qed.

Lemma translate_all_fail (chunks : list str) :
  forall (log log' : list str) (e : exn),
    translate_all backend dest_language log chunks = (log', Raise e) ->
    exists k,
      k < length chunks
      /\ log' = log ++ firstn (S k) chunks
      /\ backend dest_language (log ++ firstn k chunks) (nth k chunks [])
         = Raise e.
Proof.
  induction chunks as [|c chunks IH]; intros log log' e H.
  - discriminate H.
  - cbn [translate_all] in H.
    destruct (backend dest_language log c) as [t|e0] eqn:Hc.
    + destruct (translate_all backend dest_language (log ++ [c]) chunks)
        as [log1 [ts1|e1]] eqn:E; [discriminate|].
      injection H as <- <-.
      destruct (IH _ _ _ E) as (k & Hk & -> & Hb).
      exists (S k). cbn [length firstn nth].
      split; [lia|]. rewrite <- !app_assoc in *. split; [reflexivity|exact Hb].
    + injection H as <- <-. exists 0. cbn [length firstn nth].
      split; [lia|]. rewrite app_nil_r. split; [reflexivity|exact Hc].
Qed.

(** X6: when [translate_text] returns a text, the requests it sent are
    exactly the chunks of the input in order: together they are the input,
    there are ceil(len/500) of them, every request was answered, and the
    result is the answers joined by single spaces. *)
Theorem translate_text_requests (text : str) (log : list str) (out : str) :
  translate_text GoogleTranslator backend dest_language text = (log, Ok out) ->
  split_chunks chunk_size text = Ok log
  /\ concat log = text
  /\ length log = (length text + 499) / 500
  /\ exists replies,
       length replies = length log
       /\ out = join (lit " ") replies
       /\ forall k, k < length log ->
            backend dest_language (firstn k log) (nth k log [])
            = Ok (nth k replies []).
Proof.
  intros H.
  destruct (@split_chunks_concat chunk_size text ltac:(unfold chunk_size; lia))
    as (chunks & Hsplit & Hcat & Hlen).
  unfold translate_text in H.
  destruct (GoogleTranslator dest_language) as [u|e]; [|discriminate].
  rewrite Hsplit in H.
  destruct (translate_all backend dest_language [] chunks)
    as [log1 [ts|e]] eqn:E; [|discriminate].
  injection H as <- <-.
  destruct (translate_all_ok _ _ E) as (-> & Hts & Hk).
  cbn [app] in *.
  split; [exact Hsplit|]. split; [exact Hcat|].
  split; [rewrite Hlen; unfold chunk_size; f_equal; lia|].
  exists ts. split; [exact Hts|]. split; [reflexivity|exact Hk].
Qed.

(** X7: when [translate_text] raises, either the translator could not be
    built for the target language, and then no request was sent and the
    error is the constructor's; or it was built and the call stopped at the
    first chunk the collaborator failed on: the requests sent are the chunks
    up to and including that one, no later chunk was sent, and the error
    raised is the collaborator's.  No partial text is returned. *)
Theorem translate_text_failure (text : str) (log : list str) (e : exn) :
  translate_text GoogleTranslator backend dest_language text = (log, Raise e) ->
  (GoogleTranslator dest_language = Raise e /\ log = [])
  \/ (GoogleTranslator dest_language = Ok tt
      /\ exists chunks k,
           split_chunks chunk_size text = Ok chunks
           /\ k < length chunks
           /\ log = firstn (S k) chunks
           /\ backend dest_language (firstn k chunks) (nth k chunks [])
              = Raise e).
Proof.
  intros H.
  destruct (@split_chunks_concat chunk_size text ltac:(unfold chunk_size; lia))
    as (chunks & Hsplit & _ & _).
  unfold translate_text in H.
  destruct (GoogleTranslator dest_language) as [[]|e0].
  - right. split; [reflexivity|]. rewrite Hsplit in H.
    destruct (translate_all backend dest_language [] chunks)
      as [log1 [ts|e1]] eqn:E; [discriminate|].
    injection H as <- <-.
    destruct (translate_all_fail _ _ E) as (k & Hk & -> & Hb).
    exists chunks, k. auto.
  - left. injection H as <- <-. split; reflexivity.
Qed.

(** X8: once the translator for the target language is built, a non-empty
    text of at most 500 characters is sent to the collaborator whole, in one
    request, and the result of [translate_text] is the collaborator's answer
    or error, unchanged; when the translator cannot be built, nothing is
    sent and the constructor's error is raised. *)
Theorem translate_text_single_chunk (text : str) :
  0 < length text <= 500 ->
  translate_text GoogleTranslator backend dest_language text
  = match GoogleTranslator dest_language with
    | Ok _ => ([text], backend dest_language [] text)
    | Raise e => ([], Raise e)
    end.
Proof.
  intros [Hpos Hle].
  assert (Hsplit : split_chunks chunk_size text = Ok [text]).
  { rewrite split_chunks_eq by (unfold chunk_size; lia).
    destruct (Nat.ltb_spec 0 (length text)) as [_|Hn]; [|lia].
    replace ((length text - 0 - 1) / chunk_size) with 0
      by (symmetry; apply Nat.div_small; unfold chunk_size; lia).
    cbn [Nat.add seq map Nat.mul skipn]. now rewrite firstn_all2. }
  unfold translate_text.
  destruct (GoogleTranslator dest_language) as [u|e]; [|reflexivity].
  rewrite Hsplit. cbn [translate_all app].
  destruct (backend dest_language [] text); reflexivity.
Qed.

End TranslateFacts.

Lemma translate_text_requests_witness :
  split_chunks chunk_size (repeat 97%N 501)
  = Ok [repeat 97%N 500; [97%N]]
  /\ concat [repeat 97%N 500; [97%N]] = repeat 97%N 501
  /\ length [repeat 97%N 500; [97%N]] = (length (repeat 97%N 501) + 499) / 500
  /\ exists replies,
       length replies = length [repeat 97%N 500; [97%N]]
       /\ repeat 97%N 500 ++ 32%N :: [97%N] = join (lit " ") replies
       /\ forall k, k < length [repeat 97%N 500; [97%N]] ->
            echo_backend (lit "hi") (firstn k [repeat 97%N 500; [97%N]])
                         (nth k [repeat 97%N 500; [97%N]] [])
            = Ok (nth k replies []).
Proof.
  apply (@translate_text_requests supports_en_hi echo_backend (lit "hi")
           (repeat 97%N 501)
           [repeat 97%N 500; [97%N]] (repeat 97%N 500 ++ 32%N :: [97%N])).
  vm_compute. reflexivity.
Defined.

Lemma translate_text_failure_witness :
  (supports_en_hi (lit "hi") = Raise BackendError
   /\ [repeat 97%N 500; repeat 97%N 500] = [])
  \/ (supports_en_hi (lit "hi") = Ok tt
      /\ exists chunks k,
           split_chunks chunk_size (repeat 97%N 1001) = Ok chunks
           /\ k < length chunks
           /\ [repeat 97%N 500; repeat 97%N 500] = firstn (S k) chunks
           /\ failing_backend (lit "hi") (firstn k chunks) (nth k chunks [])
              = Raise BackendError).
Proof.
  apply (@translate_text_failure supports_en_hi failing_backend (lit "hi")
           (repeat 97%N 1001) [repeat 97%N 500; repeat 97%N 500] BackendError).
  vm_compute. reflexivity.
Defined.

(** The other way to fail: the target is not supported, and nothing is
    sent. *)
Example translate_text_failure_unsupported :
  translate_text supports_en_hi echo_backend (lit "xx") (repeat 97%N 1001)
  = ([], Raise LanguageNotSupportedException).
Proof. reflexivity. Qed.

Lemma translate_text_single_chunk_witness :
  translate_text supports_en_hi echo_backend (lit "hi") (lit "short text")
  = ([lit "short text"], Ok (lit "short text")).
Proof.
  apply (@translate_text_single_chunk supports_en_hi echo_backend (lit "hi")
           (lit "short text")).
  vm_compute. split; apply Nat.leb_le; reflexivity.
Defined.

Unset Implicit Arguments.

(** ** More on trimming *)

Lemma lstrip_head (s : str) :
  lstrip s = [] \/ exists c t, lstrip s = c :: t /\ is_space c = false.
Proof.
  induction s as [|c s IH]; [now left|].
  simpl. destruct (is_space c) eqn:Hc; [exact IH|right; eauto].
Qed.

Lemma lstrip_nonspace (c : char) (s : str) :
  is_space c = false -> lstrip (c :: s) = c :: s.
Proof. intros H. simpl. now rewrite H. Qed.

Lemma lstrip_idem (s : str) : lstrip (lstrip s) = lstrip s.
Proof.
  destruct (lstrip_head s) as [->|(c & t & -> & Hc)]; [reflexivity|].
  now apply lstrip_nonspace.
Qed.

Lemma lstrip_snoc (u : str) (c : char) :
  is_space c = false -> lstrip (u ++ [c]) = lstrip u ++ [c].
Proof.
  intros Hc. induction u as [|x u IH]; simpl.
  - now rewrite Hc.
  - destruct (is_space x); [exact IH|reflexivity].
Qed.

Lemma rstrip_idem (s : str) : rstrip (rstrip s) = rstrip s.
Proof. unfold rstrip. now rewrite rev_involutive, lstrip_idem. Qed.

Lemma lstrip_rstrip (t : str) : lstrip t = t -> lstrip (rstrip t) = rstrip t.
Proof.
  intros Ht. destruct t as [|c t]; [reflexivity|].
  assert (Hc : is_space c = false).
  { destruct (is_space c) eqn:Hc; [|reflexivity]. exfalso.
    simpl in Ht. rewrite Hc in Ht.
    apply (f_equal (@length char)) in Ht. simpl in Ht.
    pose proof (lstrip_length t). lia. }
  unfold rstrip. cbn [rev]. rewrite lstrip_snoc by exact Hc.
  rewrite rev_app_distr. cbn [rev app]. now apply lstrip_nonspace.
Qed.

Lemma strip_idem (s : str) : strip (strip s) = strip s.
Proof.
  unfold strip.
  rewrite (lstrip_rstrip (lstrip s) (lstrip_idem s)).
  apply rstrip_idem.
Qed.

Lemma lstrip_incl (x : char) (s : str) : In x (lstrip s) -> In x s.
Proof.
  induction s as [|c s IH]; [auto|]. simpl.
  destruct (is_space c); [right; auto|auto].
Qed.

Lemma strip_incl (x : char) (s : str) : In x (strip s) -> In x s.
Proof.
  unfold strip, rstrip. intros H. apply in_rev in H.
  apply lstrip_incl in H. apply in_rev in H. now apply lstrip_incl in H.
Qed.

Lemma up_to_excludes (c : char) (s : str) : ~ In c (up_to c s).
Proof.
  induction s as [|x s IH]; [auto|]. simpl.
  destruct (N.eqb_spec x c) as [->|Hx]; [auto|].
  intros [H|H]; [congruence|contradiction].
Qed.

(** ** More on the parser *)

Lemma parse_line_ignored (st : pstate) (raw : str) :
  ignored_line raw = true -> parse_line st raw = Ok st.
Proof.
  unfold ignored_line. intros H.
  apply andb_prop in H. destruct H as [H Ha].
  apply andb_prop in H. destruct H as [Hq Hm].
  apply negb_true_iff in Hq, Hm, Ha.
  unfold parse_line. destruct st as [qs cur]. now rewrite Hq, Hm, Ha.
Qed.

Lemma parse_line_strip (st : pstate) (raw : str) :
  parse_line st (strip raw) = parse_line st raw.
Proof. unfold parse_line. now rewrite strip_idem. Qed.

Lemma parse_loop_meaningful (lines : list str) :
  forall st : pstate,
    parse_loop st (filter meaningful lines) = parse_loop st lines.
Proof.
  induction lines as [|raw lines IH]; intros st; [reflexivity|].
  cbn [filter]. unfold meaningful at 1.
  destruct (ignored_line raw) eqn:Hi; cbn [negb parse_loop].
  - rewrite (parse_line_ignored st raw Hi). cbn [bind]. apply IH.
  - destruct (parse_line st raw); cbn [bind]; [apply IH|reflexivity].
Qed.

Lemma parse_loop_strip (lines : list str) :
  forall st : pstate,
    parse_loop st (map strip lines) = parse_loop st lines.
Proof.
  induction lines as [|raw lines IH]; intros st; [reflexivity|].
  cbn [map parse_loop]. rewrite parse_line_strip.
  destruct (parse_line st raw); cbn [bind]; [apply IH|reflexivity].
Qed.

(** The lines of a text assembled from single lines. *)
Lemma parse_joined (ls : list str) :
  Forall (fun l => ~ In 10%N l) ls ->
  parse_mcqs (join newline ls)
  = (st <- parse_loop initial ls ;; Ok (finish st)).
Proof.
  intros H. unfold parse_mcqs, lines_of, newline.
  destruct ls as [|l ls]; [reflexivity|].
  now rewrite split_join by exact H.
Qed.

(** X9: lines that begin with none of ['Q:'], an option marker or
    ['Correct Answer:'] have no effect: two texts whose remaining lines are
    the same give the same result, be it a list of questions or an error. *)
Theorem parse_mcqs_skips_other_lines (ls1 ls2 : list str) :
  Forall (fun l => ~ In 10%N l) ls1 ->
  Forall (fun l => ~ In 10%N l) ls2 ->
  filter meaningful ls1 = filter meaningful ls2 ->
  parse_mcqs (join newline ls1) = parse_mcqs (join newline ls2).
Proof.
  intros H1 H2 E.
  rewrite !parse_joined by assumption.
  now rewrite <- (parse_loop_meaningful ls1), <- (parse_loop_meaningful ls2), E.
Qed.

Lemma parse_mcqs_skips_other_lines_witness :
  parse_mcqs (join newline [lit "Here you go:"; lit "Q: a"; []; lit "A) x";
                            lit "Explanation: none"])
  = parse_mcqs (join newline [lit "Q: a"; lit "A) x"]).
Proof.
  apply parse_mcqs_skips_other_lines.
  - repeat constructor; vm_compute; intuition discriminate.
  - repeat constructor; vm_compute; intuition discriminate.
  - reflexivity.
Defined.

(** X10: white space around a line has no effect: trimming every line of a
    text before parsing gives the same result. *)
Theorem parse_mcqs_ignores_indentation (ls : list str) :
  Forall (fun l => ~ In 10%N l) ls ->
  parse_mcqs (join newline (map strip ls)) = parse_mcqs (join newline ls).
Proof.
  intros H.
  assert (H' : Forall (fun l => ~ In 10%N l) (map strip ls)).
  { apply Forall_map. eapply Forall_impl; [|exact H].
    intros l Hl Hin. apply Hl. now apply strip_incl. }
  rewrite !parse_joined by assumption.
  now rewrite parse_loop_strip.
Qed.

Lemma parse_mcqs_ignores_indentation_witness :
  parse_mcqs (join newline (map strip [lit "    Q: a  "; lit "    A) x"]))
  = parse_mcqs (join newline [lit "    Q: a  "; lit "    A) x"]).
Proof.
  apply parse_mcqs_ignores_indentation.
  repeat constructor; vm_compute; intuition discriminate.
Defined.

Lemma parsed_fields_empty : parsed_fields empty_dict.
Proof.
  unfold parsed_fields. cbn.
  split; [tauto|]. repeat split; intros; discriminate.
Qed.

Lemma flush_parsed (qs : list qdict) (cur : qdict) :
  Forall parsed_ok qs -> parsed_fields cur ->
  Forall parsed_ok (if dict_truthy cur then qs ++ [cur] else qs).
Proof.
  intros Hqs Hcur. destruct (dict_truthy cur) eqn:Ht; [|exact Hqs].
  apply Forall_app. split; [exact Hqs|]. constructor; [|constructor].
  now split.
Qed.

Lemma parse_line_fields (qs qs' : list qdict) (cur cur' : qdict) (raw : str) :
  Forall parsed_ok qs -> parsed_fields cur ->
  parse_line (qs, cur) raw = Ok (qs', cur') ->
  Forall parsed_ok qs' /\ parsed_fields cur'.
Proof.
  intros Hqs Hcur H.
  destruct Hcur as (Hkeys & Hopts & Htext & Hlabel).
  destruct (startswith (lit "Q:") (strip raw)) eqn:Hq.
  - rewrite parse_line_question in H by exact Hq. injection H as <- <-.
    split; [apply flush_parsed;
            [exact Hqs|exact (conj Hkeys (conj Hopts (conj Htext Hlabel)))]|].
    unfold parsed_fields. cbn.
    split; [split; discriminate|].
    split; [intros os E; injection E as <-; constructor|].
    split; [intros t E; injection E as <-; apply strip_idem|].
    intros l E. discriminate E.
  - destruct (startswith_any option_markers (strip raw)) eqn:Hm.
    + rewrite parse_line_option in H by exact Hm.
      destruct (options cur) as [opts|] eqn:Ho; [|discriminate].
      injection H as <- <-. split; [exact Hqs|].
      unfold parsed_fields. cbn.
      split.
      { split; [|discriminate]. intros E. apply Hkeys in E. discriminate E. }
      split.
      { intros os E. injection E as <-. apply Forall_app.
        split; [now apply Hopts|]. constructor; [|constructor].
        split; [exact Hm|apply strip_idem]. }
      split; assumption.
    + destruct (startswith (lit "Correct Answer:") (strip raw)) eqn:Ha.
      * rewrite parse_line_answer in H by exact Ha. injection H as <- <-.
        split; [exact Hqs|]. unfold parsed_fields. cbn.
        split; [exact Hkeys|]. split; [exact Hopts|]. split; [exact Htext|].
        intros l E. injection E as <-. split; [apply strip_idem|].
        intros Hin. apply strip_incl in Hin.
        exact (up_to_excludes _ _ Hin).
      * unfold parse_line in H. rewrite Hq, Hm, Ha in H.
        injection H as <- <-. split; [exact Hqs|].
        exact (conj Hkeys (conj Hopts (conj Htext Hlabel))).
Qed.

Lemma parse_loop_fields (lines : list str) :
  forall (qs qs' : list qdict) (cur cur' : qdict),
    Forall parsed_ok qs -> parsed_fields cur ->
    parse_loop (qs, cur) lines = Ok (qs', cur') ->
    Forall parsed_ok qs' /\ parsed_fields cur'.
Proof.
  induction lines as [|raw lines IH]; intros qs qs' cur cur' Hqs Hcur H.
  - injection H as <- <-. now split.
  - cbn [parse_loop] in H.
    destruct (parse_line (qs, cur) raw) as [[qs1 cur1]|] eqn:E; [|discriminate].
    cbn [bind] in H.
    destruct (parse_line_fields _ _ _ _ _ Hqs Hcur E) as [Hqs1 Hcur1].
    exact (IH _ _ _ _ Hqs1 Hcur1 H).
Qed.

(** X11: every dictionary [parse_mcqs] returns is non-empty; it has a text
    exactly when it has an options list; each of its options is a trimmed
    line that begins with one of the four markers; its text and its label
    are trimmed, and its label contains no colon. *)
Theorem parse_mcqs_output_shape (mcqs_text : str) (qs : list qdict) :
  parse_mcqs mcqs_text = Ok qs ->
  Forall (fun q => dict_truthy q = true /\ parsed_fields q) qs.
Proof.
  unfold parse_mcqs. intros H.
  destruct (parse_loop initial (lines_of mcqs_text)) as [[qs1 cur1]|] eqn:E;
    [|discriminate].
  cbn [bind] in H. injection H as <-.
  destruct (parse_loop_fields _ _ _ _ _ (Forall_nil _) parsed_fields_empty E)
    as [Hqs Hcur].
  unfold finish. now apply flush_parsed.
Qed.

Lemma parse_mcqs_output_shape_witness :
  Forall (fun q => dict_truthy q = true /\ parsed_fields q)
         [mk_qdict None None (Some (lit "B")); mcq_text_only].
Proof.
  apply (parse_mcqs_output_shape
           (lit "Correct Answer: B : x" ++ newline ++ lit " Q:  a ")).
  vm_compute. reflexivity.
Defined.

Lemma truthy_after_line (qs qs' : list qdict) (cur cur' : qdict) (raw : str) :
  parse_line (qs, cur) raw = Ok (qs', cur') ->
  ignored_line raw = false ->
  dict_truthy cur' = true.
Proof.
  intros H Hi. unfold ignored_line in Hi. unfold parse_line in H.
  destruct (startswith (lit "Q:") (strip raw)).
  - injection H as _ <-. reflexivity.
  - destruct (startswith_any option_markers (strip raw)).
    + destruct (options cur); [|discriminate].
      injection H as _ <-. unfold dict_truthy. cbn.
      now destruct (question cur).
    + destruct (startswith (lit "Correct Answer:") (strip raw));
        [|discriminate Hi].
      destruct (py_index (split (lit ":") (strip raw)) 1); [|discriminate].
      cbn [bind] in H. injection H as _ <-. unfold dict_truthy. cbn.
      now destruct (question cur), (options cur).
Qed.

Lemma parse_loop_count (lines : list str) :
  forall (qs qs' : list qdict) (cur cur' : qdict),
    parse_loop (qs, cur) lines = Ok (qs', cur') ->
    questions_so_far (qs', cur')
    = questions_so_far (qs, cur) + count_question_lines lines
      + (if dict_truthy cur then 0
         else if stray_label lines then 1 else 0).
Proof.
  induction lines as [|raw lines IH]; intros qs qs' cur cur' H.
  - injection H as <- <-. cbn. destruct (dict_truthy cur); lia.
  - cbn [parse_loop] in H.
    destruct (parse_line (qs, cur) raw) as [[qs1 cur1]|] eqn:E; [|discriminate].
    cbn [bind] in H. rewrite (IH _ _ _ _ H). clear IH H.
    cbn [count_question_lines stray_label].
    destruct (startswith (lit "Q:") (strip raw)) eqn:Hq.
    + rewrite parse_line_question in E by exact Hq. injection E as <- <-.
      unfold questions_so_far, finish. cbn [dict_truthy question].
      destruct (dict_truthy cur); rewrite ?length_app; cbn [length]; lia.
    + destruct (startswith_any option_markers (strip raw)) eqn:Hm.
      * rewrite parse_line_option in E by exact Hm.
        destruct (options cur) as [opts|] eqn:Ho; [|discriminate].
        injection E as <- <-.
        assert (Ht : dict_truthy cur = true).
        { unfold dict_truthy. rewrite Ho. now destruct (question cur). }
        unfold questions_so_far, finish. rewrite Ht.
        replace (dict_truthy _) with true
          by (unfold dict_truthy; cbn; now destruct (question cur)).
        cbv iota. rewrite !length_app. cbn [length]. lia.
      * destruct (startswith (lit "Correct Answer:") (strip raw)) eqn:Ha.
        -- rewrite parse_line_answer in E by exact Ha. injection E as <- <-.
           unfold questions_so_far, finish.
           replace (dict_truthy (mk_qdict _ _ _)) with true
             by (unfold dict_truthy; cbn;
                 now destruct (question cur), (options cur)).
           destruct (dict_truthy cur); cbv iota;
             rewrite ?length_app; cbn [length]; lia.
        -- unfold parse_line in E. rewrite Hq, Hm, Ha in E.
           injection E as <- <-. lia.
Qed.

(** X12: when [parse_mcqs] returns, the number of questions it returns is
    the number of lines that begin with ['Q:'], plus one if a
    ['Correct Answer:'] line comes before the first ['Q:'] line; it does not
    depend on how many options or labels follow. *)
Theorem parse_mcqs_question_count (mcqs_text : str) (qs : list qdict) :
  parse_mcqs mcqs_text = Ok qs ->
  length qs
  = count_question_lines (lines_of mcqs_text)
    + (if stray_label (lines_of mcqs_text) then 1 else 0).
Proof.
  unfold parse_mcqs. intros H.
  destruct (parse_loop initial (lines_of mcqs_text)) as [[qs1 cur1]|] eqn:E;
    [|discriminate].
  cbn [bind] in H. injection H as <-.
  pose proof (parse_loop_count _ _ _ _ _ E) as Hc.
  unfold questions_so_far in Hc.
  change (length (finish ([], empty_dict))) with 0 in Hc.
  change (dict_truthy empty_dict) with false in Hc.
  cbv iota in Hc. exact Hc.
Qed.

Lemma parse_mcqs_question_count_witness :
  length [mk_qdict None None (Some (lit "B")); mcq_text_only]
  = count_question_lines
      (lines_of (lit "Correct Answer: B" ++ newline ++ lit "Q: a"))
    + (if stray_label
            (lines_of (lit "Correct Answer: B" ++ newline ++ lit "Q: a"))
       then 1 else 0).
Proof.
  apply (parse_mcqs_question_count
           (lit "Correct Answer: B" ++ newline ++ lit "Q: a")).
  vm_compute. reflexivity.
Defined.

(** ** More on scoring *)

Lemma score_loop_length (ans : option (list pyval)) (qs : list qdict) :
  forall (i : nat) (os : list outcome),
    score_loop ans i qs = Ok os -> length os = length qs.
Proof.
  induction qs as [|q qs IH]; intros i os H.
  - injection H as <-. reflexivity.
  - cbn [score_loop] in H.
    destruct (grade ans i q) as [o|]; [|discriminate]. cbn [bind] in H.
    destruct (score_loop ans (S i) qs) as [os'|] eqn:E; [|discriminate].
    injection H as <-. cbn [length]. now rewrite (IH _ _ E).
Qed.

Lemma percentage_bounds (count total : nat) (p : Q) :
  count <= total ->
  percentage count total = Ok p ->
  (0 <= p /\ p <= 100)%Q.
Proof.
  intros Hle H. unfold percentage in H.
  destruct total as [|t]; [discriminate|]. cbn [Nat.eqb] in H.
  injection H as <-.
  unfold Qle, Qdiv, Qmult, Qinv, inject_Z. cbn.
  split; lia.
Qed.

(** X13: whenever the scoring block completes, it reports one outcome per
    question, the number of correct answers is the number of outcomes
    'correct' and is at most the number of questions, which is not zero, and
    the percentage lies between 0 and 100. *)
Theorem score_report_bounds (qs : list qdict) (ans : option (list pyval))
    (r : report) :
  score qs ans = Ok r ->
  length (outcomes r) = length qs
  /\ total_questions r = length qs
  /\ 0 < total_questions r
  /\ correct_count r = length (filter is_correct (outcomes r))
  /\ correct_count r <= total_questions r
  /\ (0 <= score_percentage r /\ score_percentage r <= 100)%Q.
Proof.
  unfold score. intros H.
  destruct (score_loop ans 0 qs) as [os|] eqn:E; [|discriminate].
  cbn [bind] in H.
  destruct (percentage (length (filter is_correct os)) (length qs))
    as [p|] eqn:Hp; [|discriminate].
  cbn [bind] in H.
  destruct (percentage_double (length (filter is_correct os)) (length qs))
    as [d|]; [|discriminate].
  cbn [bind] in H. injection H as <-.
  cbn [outcomes correct_count total_questions score_percentage].
  pose proof (score_loop_length _ _ _ _ E) as Hlen.
  assert (Hle : length (filter is_correct os) <= length qs).
  { rewrite <- Hlen. apply filter_length_le. }
  split; [exact Hlen|]. split; [reflexivity|].
  split.
  { unfold percentage in Hp. destruct (length qs); [discriminate|lia]. }
  split; [reflexivity|]. split; [exact Hle|].
  exact (percentage_bounds _ _ _ Hle Hp).
Qed.

Lemma score_report_bounds_witness :
  exists r,
    score [sample_question] (Some [PyStr (lit "x")]) = Ok r
    /\ length (outcomes r) = 1
    /\ total_questions r = 1
    /\ 0 < total_questions r
    /\ correct_count r = length (filter is_correct (outcomes r))
    /\ correct_count r <= total_questions r
    /\ (0 <= score_percentage r /\ score_percentage r <= 100)%Q.
Proof.
  eexists. split; [vm_compute; reflexivity|].
  apply (score_report_bounds [sample_question] (Some [PyStr (lit "x")])).
  vm_compute. reflexivity.
Defined.

Lemma showable_keys (q : qdict) :
  showable q = true ->
  exists t os sh,
    question q = Some t /\ options q = Some os
    /\ map_result display_text os = Ok sh.
Proof.
  unfold showable, shown_options. intros H.
  destruct (question q) as [t|]; [|discriminate].
  destruct (options q) as [os|]; [|discriminate].
  cbn [get_key bind] in H.
  destruct (map_result display_text os) as [sh|] eqn:E; [|discriminate].
  exists t, os, sh. repeat split; [reflexivity..|exact E].
Qed.

Lemma grade_without_label (a : list pyval) (i : nat) (q : qdict) :
  showable q = true -> has_label q = false ->
  grade (Some a) i q = Raise KeyError.
Proof.
  intros Hs Hl. destruct (showable_keys q Hs) as (t & os & sh & Ht & _ & _).
  unfold has_label in Hl. unfold grade. rewrite Ht.
  destruct (correct_answer q); [discriminate|reflexivity].
Qed.

Lemma score_loop_without_label (a : list pyval) (qs : list qdict) :
  forallb showable qs = true ->
  existsb (fun q => negb (has_label q)) qs = true ->
  forall i, i + length qs <= length a ->
  score_loop (Some a) i qs = Raise KeyError.
Proof.
  induction qs as [|q qs IH]; intros Hs He i Hlen; [discriminate|].
  cbn [forallb] in Hs. apply andb_prop in Hs. destruct Hs as [Hq Hqs].
  cbn [existsb] in He. cbn [length] in Hlen. cbn [score_loop].
  destruct (has_label q) eqn:Hl.
  - cbn [negb orb] in He.
    destruct (@grade_ok a i q) as [o ->];
      [unfold gradable; now rewrite Hq, Hl|lia|].
    cbn [bind]. rewrite (IH Hqs He (S i)) by lia. reflexivity.
  - now rewrite (grade_without_label a i q Hq Hl).
Qed.

(** X14: a question without a correct-label (the parser returns one when a
    question has no ['Correct Answer:'] line) does not disturb answering,
    but makes every scoring run raise [KeyError]: before submission the run
    ends normally, and once the answers are submitted no score is shown. *)
Theorem unlabelled_question_breaks_scoring (w : widgets) (qs : list qdict)
    (a : list pyval) (sub : bool) :
  forallb showable qs = true ->
  existsb (fun q => negb (has_label q)) qs = true ->
  length a = length qs ->
  start_again w = false ->
  (submit_button w || sub = true ->
   display_mcqs w (mk_session (Some qs) (Some a) sub) = Raise KeyError)
  /\ (submit_button w || sub = false ->
      display_mcqs w (mk_session (Some qs) (Some a) sub)
      = Ok (mk_session (Some qs) (Some (picks (radio w) 0 qs)) false, None)).
Proof.
  intros Hs He Hlen Hstart.
  destruct qs as [|q qs]; [discriminate|].
  unfold display_mcqs. cbn [questions answers submitted].
  rewrite (@collect_answers_all (radio w) (q :: qs) a Hs Hlen). cbn [bind].
  split; intros Hb.
  - replace (if submit_button w then true else sub) with true
      by (destruct (submit_button w), sub; (reflexivity || discriminate)).
    unfold score.
    rewrite (score_loop_without_label (picks (radio w) 0 (q :: qs)) (q :: qs)
               Hs He 0) by (rewrite picks_length; cbn; lia).
    reflexivity.
  - apply orb_false_elim in Hb. destruct Hb as [-> ->].
    cbn [bind snd]. now rewrite Hstart.
Qed.

Lemma unlabelled_question_breaks_scoring_witness :
  display_mcqs (mk_widgets (fun _ => None) true false)
    (mk_session (Some [mcq_text_only]) (Some [PyStr []]) false)
  = Raise KeyError.
Proof.
  apply (proj1 (unlabelled_question_breaks_scoring
                  (mk_widgets (fun _ => None) true false) [mcq_text_only]
                  [PyStr []] false eq_refl eq_refl eq_refl eq_refl)).
  reflexivity.
Defined.

Lemma display_text_bare (o : str) :
  occurs (lit ") ") o = false -> display_text o = Raise IndexError.
Proof.
  intros H. unfold display_text. now rewrite (split_absent _ _ H).
Qed.

Lemma display_text_error (o : str) (e : exn) :
  display_text o = Raise e -> e = IndexError.
Proof.
  unfold display_text, py_index.
  destruct (nth_error _ 1); [discriminate|]. intros H. now injection H.
Qed.

Lemma map_display_text (os : list str) :
  (exists sh, map_result display_text os = Ok sh
              /\ existsb (fun o => negb (occurs (lit ") ") o)) os = false)
  \/ map_result display_text os = Raise IndexError.
Proof.
  induction os as [|o os IH].
  - left. exists []. now split.
  - cbn [map_result existsb].
    destruct (display_text o) as [d|e] eqn:Ho.
    + cbn [bind].
      assert (Hocc : occurs (lit ") ") o = true).
      { destruct (occurs (lit ") ") o) eqn:E; [reflexivity|].
        rewrite (display_text_bare o E) in Ho. discriminate. }
      rewrite Hocc. cbn [negb orb].
      destruct IH as [(sh & -> & Hb)| ->]; [|now right].
      left. exists (d :: sh). now split.
    + right. now rewrite (display_text_error o e Ho).
Qed.

Lemma collect_answers_bare (pick : nat -> option nat) (qs : list qdict) :
  forallb has_keys qs = true ->
  existsb has_bare_option qs = true ->
  forall (i : nat) (a : list pyval),
    i + length qs <= length a ->
    collect_answers pick i qs (Some a) = Raise IndexError.
Proof.
  induction qs as [|q qs IH]; intros Hk Hb i a Hlen; [discriminate|].
  cbn [forallb] in Hk. apply andb_prop in Hk. destruct Hk as [Hq Hqs].
  cbn [existsb] in Hb. cbn [length] in Hlen.
  unfold has_keys in Hq. unfold has_bare_option at 1 in Hb.
  cbn [collect_answers].
  destruct (question q) as [t|]; [|discriminate].
  destruct (options q) as [os|]; [|discriminate].
  cbn [get_key bind].
  destruct (map_display_text os) as [(sh & -> & Hnone)| ->]; [|reflexivity].
  rewrite Hnone in Hb. cbn [orb] in Hb. cbn [bind]. unfold set_item.
  destruct (Nat.ltb_spec i (length a)) as [_|Hge]; [|lia]. cbn [bind].
  apply (IH Hqs Hb).
  rewrite length_app, length_firstn. cbn [length]. rewrite length_skipn. lia.
Qed.

(** X15: the parser accepts an option line such as ['A)x'], with no space
    after the marker; a quiz that holds an option without [') '] cannot be
    rendered: every run of [display_mcqs] raises [IndexError] before any
    answer is scored, submitted or not. *)
Theorem bare_option_breaks_rendering (w : widgets) (qs : list qdict)
    (a : list pyval) (sub : bool) :
  forallb has_keys qs = true ->
  existsb has_bare_option qs = true ->
  length a = length qs ->
  display_mcqs w (mk_session (Some qs) (Some a) sub) = Raise IndexError.
Proof.
  intros Hk Hb Hlen.
  destruct qs as [|q qs]; [discriminate|].
  unfold display_mcqs. cbn [questions answers].
  rewrite (collect_answers_bare (radio w) (q :: qs) Hk Hb 0 a)
    by (cbn [Nat.add]; lia).
  reflexivity.
Qed.

Lemma bare_option_breaks_rendering_witness :
  parse_mcqs (lit "Q: a" ++ newline ++ lit "A)x") = Ok [bare_question]
  /\ display_mcqs no_widgets
       (mk_session (Some [bare_question]) (Some [PyStr []]) false)
     = Raise IndexError.
Proof.
  split; [vm_compute; reflexivity|].
  apply (bare_option_breaks_rendering no_widgets [bare_question]
           [PyStr []] false); reflexivity.
Defined.

(** X16: grading compares texts, not labels: for a question whose
    correct-label resolves to an option with display text [d], a run that
    picks any option whose shown text [s] is non-empty is graded correct
    exactly when [s] equals [d], whichever option that is, and wrong
    otherwise. *)
Theorem grade_compares_text (q : qdict) (t lab opt d s : str)
    (os : list str) (a : list pyval) (i k : nat) :
  question q = Some t ->
  options q = Some os ->
  correct_answer q = Some lab ->
  find (startswith lab) os = Some opt ->
  display_text opt = Ok d ->
  nth_error (shown q) k = Some s ->
  s <> [] ->
  nth_error a i = Some (radio_value (shown q) (Some k)) ->
  grade (Some a) i q
  = Ok (if str_eqb s d then Correct else Incorrect d).
Proof.
  intros Ht Hos Hlab Hfind Hd Hs Hne Ha.
  unfold grade, py_index. rewrite Ht, Hlab. cbn [get_key bind].
  rewrite Ha. cbn [bind]. rewrite Hos. cbn [get_key bind].
  rewrite Hfind, Hd. cbn [bind].
  unfold radio_value. rewrite Hs.
  destruct s as [|c s]; [contradiction|].
  cbn [truthy pyval_eqb]. now destruct (str_eqb (c :: s) d).
Qed.

Lemma grade_compares_text_witness :
  grade (Some [radio_value (shown twin_question) (Some 1)]) 0 twin_question
  = Ok Correct.
Proof.
  apply (grade_compares_text twin_question (lit "one") (lit "A")
           (lit "A) x") (lit "x") (lit "x")
           [lit "A) x"; lit "B) x"; lit "C) z"]
           [radio_value (shown twin_question) (Some 1)] 0 1);
    first [reflexivity | discriminate].
Defined.

(** ** Successive runs *)

Lemma collect_answers_some (pick : nat -> option nat) (qs : list qdict) :
  forall (i : nat) (ans r : option (list pyval)),
    collect_answers pick i qs ans = Ok r ->
    qs = [] /\ r = ans
    \/ exists a a', ans = Some a /\ r = Some a' /\ length a' = length a.
Proof.
  induction qs as [|q qs IH]; intros i ans r H.
  - injection H as <-. now left.
  - right. cbn [collect_answers] in H.
    destruct (get_key (question q)) as [t|]; [|discriminate].
    cbn [bind] in H.
    destruct (get_key (options q)) as [os|]; [|discriminate]. cbn [bind] in H.
    destruct (map_result display_text os) as [sh|]; [|discriminate].
    cbn [bind] in H.
    destruct ans as [a|]; [|discriminate]. cbn [get_key bind] in H.
    unfold set_item in H.
    destruct (Nat.ltb_spec i (length a)) as [Hi|_]; [|discriminate].
    cbn [bind] in H.
    assert (Hlen : length (firstn i a ++ radio_value sh (pick i)
                             :: skipn (S i) a) = length a).
    { rewrite length_app, length_firstn. cbn [length].
      rewrite length_skipn. lia. }
    destruct (IH _ _ _ H) as [[_ ->]|(a1 & a' & E & -> & Hl)].
    + eexists a, _. split; [reflexivity|]. split; [reflexivity|exact Hlen].
    + injection E as E. exists a, a'.
      split; [reflexivity|]. split; [reflexivity|].
      rewrite Hl, <- E. exact Hlen.
Qed.

(** What a single run without "Start Again" keeps. *)
Lemma display_mcqs_keeps (w : widgets) (st st' : session_state)
    (rep : option report) :
  start_again w = false ->
  display_mcqs w st = Ok (st', rep) ->
  questions st' = questions st
  /\ (submitted st = true -> submitted st' = true)
  /\ (submitted st' = true -> submitted st = true \/ submit_button w = true)
  /\ option_map (@length pyval) (answers st')
     = option_map (@length pyval) (answers st).
Proof.
  intros Hstart H. unfold display_mcqs in H. rewrite Hstart in H.
  destruct st as [qs ans sub]. cbn [questions answers submitted] in *.
  destruct qs as [[|q qs]|].
  - injection H as <- <-. cbn. auto.
  - destruct (collect_answers (radio w) 0 (q :: qs) ans) as [r|] eqn:E;
      [|discriminate].
    cbn [bind] in H.
    destruct (collect_answers_some _ _ _ _ _ E)
      as [[Hnil _]|(a & a' & -> & -> & Hlen)]; [discriminate|].
    destruct (if submit_button w then true else sub) eqn:Hsub.
    + destruct (score (q :: qs) (Some a')) as [rp|]; [|discriminate].
      cbn [bind] in H. injection H as <- <-. cbn.
      split; [reflexivity|]. split; [auto|].
      split; [|now rewrite Hlen].
      intros _. destruct (submit_button w); auto.
    + cbn [bind] in H. injection H as <- <-. cbn.
      split; [reflexivity|].
      split; [destruct (submit_button w);
              [discriminate Hsub|intros Hs; congruence]|].
      split; [discriminate|now rewrite Hlen].
  - injection H as <- <-. cbn. auto.
Qed.

(** X17: over any sequence of runs of [display_mcqs] in which "Start Again"
    is never pressed and no run raises, the questions are never changed, the
    number of answer records stays the same, and a submitted session stays
    submitted. *)
Theorem display_runs_keep (ws : list widgets) :
  forall st st' : session_state,
    forallb (fun w => negb (start_again w)) ws = true ->
    display_runs ws st = Ok st' ->
    questions st' = questions st
    /\ option_map (@length pyval) (answers st')
       = option_map (@length pyval) (answers st)
    /\ (submitted st = true -> submitted st' = true).
Proof.
  induction ws as [|w ws IH]; intros st st' Hws H.
  - injection H as <-. auto.
  - cbn [forallb] in Hws. apply andb_prop in Hws. destruct Hws as [Hw Hrest].
    apply negb_true_iff in Hw.
    cbn [display_runs] in H.
    destruct (display_mcqs w st) as [[st1 rep]|] eqn:E; [|discriminate].
    cbn [bind fst] in H.
    destruct (display_mcqs_keeps w st st1 rep Hw E) as (Hq & Hs & _ & Ha).
    destruct (IH st1 st' Hrest H) as (Hq' & Ha' & Hs').
    split; [congruence|]. split; [congruence|auto].
Qed.

Lemma display_runs_keep_witness :
  questions (mk_session (Some [sample_question]) (Some [PyStr (lit "x")]) true)
  = Some [sample_question]
  /\ option_map (@length pyval)
       (answers (mk_session (Some [sample_question])
                            (Some [PyStr (lit "x")]) true))
     = Some 1
  /\ (true = true ->
      submitted (mk_session (Some [sample_question])
                            (Some [PyStr (lit "x")]) true) = true).
Proof.
  apply (display_runs_keep
           [mk_widgets (fun _ => Some 1) false false;
            mk_widgets (fun _ => Some 0) false false]
           (mk_session (Some [sample_question]) (Some [PyStr []]) true)
           (mk_session (Some [sample_question]) (Some [PyStr (lit "x")]) true));
    [reflexivity|vm_compute; reflexivity].
Defined.

(** ** The session a run leaves behind *)

(** The two accounts of the first loop agree on how it ends and, when it
    ends normally, on the answers. *)
Lemma collect_answers_run_spec (pick : nat -> option nat) (qs : list qdict) :
  forall (i : nat) (ans : option (list pyval)),
    collect_answers pick i qs ans
    = match collect_answers_run pick i qs ans with
      | (a, None) => Ok a
      | (_, Some e) => Raise e
      end.
Proof.
  induction qs as [|q qs IH]; intros i ans; [reflexivity|].
  cbn [collect_answers collect_answers_run].
  destruct (get_key (question q)) as [t|e]; [|reflexivity]. cbn [bind].
  destruct (get_key (options q)) as [os|e]; [|reflexivity]. cbn [bind].
  destruct (map_result display_text os) as [sh|e]; [|reflexivity].
  cbn [bind].
  destruct (get_key ans) as [a|e]; [|reflexivity]. cbn [bind].
  destruct (set_item a i (radio_value sh (pick i))) as [a'|e]; [|reflexivity].
  cbn [bind]. apply IH.
Qed.

(** The two accounts of [display_mcqs] agree: a run that ends normally
    leaves the state and shows the report that [display_mcqs] returns, and a
    run that raises raises the same exception. *)
Lemma display_mcqs_run_spec (w : widgets) (st : session_state) :
  display_mcqs w st
  = match display_mcqs_run w st with
    | (st', Ok rep) => Ok (st', rep)
    | (_, Raise e) => Raise e
    end.
Proof.
  unfold display_mcqs, display_mcqs_run.
  destruct (questions st) as [[|q qs]|].
  - cbn [bind snd]. destruct (start_again w); reflexivity.
  - rewrite collect_answers_run_spec.
    destruct (collect_answers_run (radio w) 0 (q :: qs) (answers st))
      as [ans [e|]]; [reflexivity|].
    cbn [bind].
    destruct (if submit_button w then true else submitted st).
    + destruct (score (q :: qs) ans) as [rp|e]; [|reflexivity].
      cbn [bind snd]. destruct (start_again w); reflexivity.
    + cbn [bind snd]. destruct (start_again w); reflexivity.
  - cbn [bind snd]. destruct (start_again w); reflexivity.
Qed.

Lemma render_run_spec (w : widgets) (st : session_state) :
  render w st
  = match render_run w st with
    | (st', Ok rep) => Ok (st', rep)
    | (_, Raise e) => Raise e
    end.
Proof.
  unfold render, render_run.
  destruct (list_truthy (questions st)); [|reflexivity].
  apply display_mcqs_run_spec.
Qed.

(** A run whose scoring block raises has already stored the answers of its
    first loop and the submission. *)
Example aborted_run_keeps_submission :
  display_mcqs_run (mk_widgets (fun _ => None) true false)
    (mk_session (Some [mcq_text_only]) (Some [PyStr []]) false)
  = (mk_session (Some [mcq_text_only]) (Some [PyNone]) true, Raise KeyError).
Proof. reflexivity. Qed.

(** ** The script *)

Section ScriptFacts.

Variable Transcript : Type.
Variable transcript_truthy : Transcript -> bool.
Variable format_transcript : Transcript -> result str.
Variable list_transcripts : str -> result (list (result Transcript)).
Variable GoogleTranslator : str -> result unit.
Variable backend : str -> list str -> str -> result str.
Variable predict : str -> result str.

Lemma and_then_keeps (P : app_state -> Prop) (Q : event -> Prop) (r : run)
    (next : app_state -> run) :
  run_keeps P Q r ->
  (forall s, P s -> run_keeps P Q (next s)) ->
  run_keeps P Q (and_then r next).
Proof.
  intros [Hs He] Hnext. unfold and_then.
  destruct (ended r); [|now split..].
  destruct (Hnext _ Hs) as [Hs' He'].
  split; cbn [state_after events]; [exact Hs'|].
  apply Forall_app. now split.
Qed.

(** The last step keeps what does not depend on the quiz, also when it is
    aborted. *)
Lemma quiz_step_keeps (P : app_state -> Prop) (Q : event -> Prop)
    (inp : inputs) (s : app_state) :
  no_restart inp = true ->
  (forall q, P (mk_app (language s) (video_url s) (num_questions s)
                       (transcript s) (translated_transcript s) q)) ->
  P s ->
  run_keeps P Q (quiz_step inp s).
Proof.
  intros Hr Hq Hs. unfold no_restart in Hr. apply negb_true_iff in Hr.
  unfold quiz_step. rewrite Hr, andb_false_r.
  destruct (snd (render_run (quiz_widgets inp) (quiz s))) as [rep|e];
    split; cbn [state_after events]; auto.
Qed.

Lemma generate_step_keeps (P : app_state -> Prop) (Q : event -> Prop)
    (inp : inputs) (s : app_state) :
  (forall n q, P (mk_app (language s) (video_url s) n
                         (transcript s) (translated_transcript s) q)) ->
  (forall tt, translated_transcript s = Some tt ->
              Q (Predicted (prompt tt (slider inp)))) ->
  P s ->
  run_keeps P Q
    (generate_step predict inp s).
Proof.
  intros Hp Hq Hs. unfold generate_step, generate_mcqs.
  destruct (translated_transcript s) as [tt|] eqn:Htt;
    [|split; cbn [state_after events]; auto].
  specialize (Hq tt eq_refl).
  destruct (generate_button inp);
    [|split; cbn [state_after events]; [first [apply Hp | rewrite <- Htt; apply Hp]|constructor]].
  destruct (predict (prompt tt (slider inp))) as [text|e].
  - destruct (generate_clicked text _) as [q|e];
      split; cbn [state_after events language video_url num_questions
                  transcript translated_transcript];
      try (first [apply Hp | rewrite <- Htt; apply Hp]); auto.
  - split; cbn [state_after events]; [first [apply Hp | rewrite <- Htt; apply Hp]|auto].
Qed.

Lemma script_run_cached (inp : inputs) (s : app_state) (t tt : str) :
  no_restart inp = true ->
  cached t tt s ->
  run_keeps (cached t tt) (generation_from tt)
    (script_run transcript_truthy format_transcript list_transcripts
                GoogleTranslator backend predict inp s).
Proof.
  intros Hr [Ht Htt]. unfold script_run.
  set (s0 := mk_app _ _ _ _ _ _).
  assert (H0 : cached t tt s0) by (split; assumption).
  apply and_then_keeps.
  - destruct (str_truthy (url_input inp));
      [|split; cbn [state_after events]; [exact H0|constructor]].
    apply and_then_keeps; [apply and_then_keeps|].
    + unfold download_step. destruct H0 as [-> _].
      split; cbn [state_after events]; [now split|constructor].
    + intros s1 [Ht1 Htt1]. unfold translate_step. rewrite Htt1.
      split; cbn [state_after events]; [now split|constructor].
    + intros s1 [Ht1 Htt1]. apply generate_step_keeps.
      * intros n q. now split.
      * intros tt' E. rewrite Htt1 in E. injection E as <-.
        now exists (slider inp).
      * now split.
  - intros s1 [Ht1 Htt1]. apply quiz_step_keeps; [exact Hr| |now split].
    intros q. now split.
Qed.

(** What every run without "Start Again" keeps is kept by any sequence of
    such runs, however each of them ends. *)
Lemma script_runs_keep (P : app_state -> Prop) (Q : event -> Prop)
    (ins : list inputs) :
  (forall inp s, no_restart inp = true -> P s ->
     run_keeps P Q
       (script_run transcript_truthy format_transcript list_transcripts
                   GoogleTranslator backend predict inp s)) ->
  forall s : app_state,
    forallb no_restart ins = true ->
    P s ->
    P (fst (script_runs transcript_truthy format_transcript list_transcripts
                        GoogleTranslator backend predict ins s))
    /\ Forall Q
         (snd (script_runs transcript_truthy format_transcript
                           list_transcripts GoogleTranslator backend predict
                           ins s)).
Proof.
  intros Hrun. induction ins as [|inp ins IH]; intros s Hins Hs.
  - cbn [script_runs fst snd]. auto.
  - cbn [forallb] in Hins. apply andb_prop in Hins.
    destruct Hins as [Hinp Hrest].
    destruct (Hrun inp s Hinp Hs) as [Hs1 Hev].
    specialize (IH _ Hrest Hs1).
    cbn [script_runs].
    destruct (script_runs transcript_truthy format_transcript list_transcripts
                GoogleTranslator backend predict ins _) as [s1 evs1].
    cbn [fst snd] in *. destruct IH as [Hs' Hev'].
    split; [exact Hs'|]. apply Forall_app. now split.
Qed.

(** X18: once a transcript and its translation are stored, they stay as
    they are over any sequence of runs in which "Start Again" is not
    pressed, whatever URL is typed and whatever language is selected
    afterwards, and however each run ends (also when runs are aborted by an
    exception, before or inside the quiz): no run downloads or translates
    again, and every generation request is built from the stored
    translation. *)
Theorem translation_is_cached (ins : list inputs) (s : app_state)
    (t tt : str) :
  forallb no_restart ins = true ->
  transcript s = Some t ->
  translated_transcript s = Some tt ->
  transcript
    (fst (script_runs transcript_truthy format_transcript list_transcripts
                      GoogleTranslator backend predict ins s)) = Some t
  /\ translated_transcript
       (fst (script_runs transcript_truthy format_transcript list_transcripts
                         GoogleTranslator backend predict ins s)) = Some tt
  /\ Forall (generation_from tt)
       (snd (script_runs transcript_truthy format_transcript list_transcripts
                         GoogleTranslator backend predict ins s)).
Proof.
  intros Hins Ht Htt.
  destruct (script_runs_keep (cached t tt) (generation_from tt) ins
              (fun inp s0 Hr Hc => script_run_cached inp s0 t tt Hr Hc)
              s Hins (conj Ht Htt)) as [[Ht' Htt'] Hev].
  auto.
Qed.

(** X19: translation is fail-fast: in a run with a URL, a stored transcript
    and no translation yet, if the collaborator fails on some chunk (or the
    translator cannot be built) the run is aborted with that error right
    after the translation requests; no generation request is made, the quiz
    is not rendered, the transcript stays stored and no translation is
    stored. *)
Theorem translation_failure_aborts (inp : inputs) (s : app_state) (t : str)
    (log : list str) (e : exn) :
  str_truthy (url_input inp) = true ->
  transcript s = Some t ->
  translated_transcript s = None ->
  translate_text GoogleTranslator backend
    (language_code (language_name (language_radio inp))) t = (log, Raise e) ->
  script_run transcript_truthy format_transcript list_transcripts
             GoogleTranslator backend predict inp s
  = mk_run (mk_app (language_name (language_radio inp)) (url_input inp)
                   (num_questions s) (Some t) None (quiz s))
           [Translated (language_code (language_name (language_radio inp)))
                       log]
           (AbortedEarly e).
Proof.
  intros Hurl Ht Htt Htr.
  unfold script_run. rewrite Hurl, Ht, Htt.
  unfold download_step. cbn [transcript].
  unfold and_then at 3. cbn [ended state_after events].
  unfold translate_step.
  cbn [transcript translated_transcript language]. rewrite Htr.
  unfold and_then. cbn [ended state_after events app]. reflexivity.
Qed.

Lemma script_run_keeps_transcript (inp : inputs) (s : app_state) (t : str) :
  no_restart inp = true ->
  transcript s = Some t ->
  run_keeps (fun s => transcript s = Some t) not_download
    (script_run transcript_truthy format_transcript list_transcripts
                GoogleTranslator backend predict inp s).
Proof.
  intros Hr Ht. unfold script_run.
  set (s0 := mk_app _ _ _ _ _ _).
  assert (H0 : transcript s0 = Some t) by exact Ht.
  apply and_then_keeps.
  - destruct (str_truthy (url_input inp));
      [|split; cbn [state_after events]; [exact H0|constructor]].
    apply and_then_keeps; [apply and_then_keeps|].
    + unfold download_step. rewrite H0.
      split; cbn [state_after events]; [exact H0|constructor].
    + intros s1 Ht1. unfold translate_step. rewrite Ht1.
      destruct (translated_transcript s1);
        [split; cbn [state_after events]; [exact Ht1|constructor]|].
      destruct (translate_text GoogleTranslator backend
                  (language_code (language s1)) t)
        as [log [tt|e]];
        split; cbn [state_after events transcript]; auto;
        repeat constructor.
    + intros s1 Ht1. apply generate_step_keeps;
        [intros n q; exact Ht1|intros tt E; reflexivity|exact Ht1].
  - intros s1 Ht1. apply quiz_step_keeps; [exact Hr|intros q; exact Ht1|exact Ht1].
Qed.

(** X20: a stored transcript is never replaced and never downloaded again
    over any sequence of runs in which "Start Again" is not pressed, however
    each run ends (also when runs are aborted by an exception, before or
    inside the quiz): typing another URL afterwards has no effect on it. *)
Theorem transcript_is_cached (ins : list inputs) (s : app_state) (t : str) :
  forallb no_restart ins = true ->
  transcript s = Some t ->
  transcript
    (fst (script_runs transcript_truthy format_transcript list_transcripts
                      GoogleTranslator backend predict ins s)) = Some t
  /\ forallb (fun e => negb (is_download e))
       (snd (script_runs transcript_truthy format_transcript list_transcripts
                         GoogleTranslator backend predict ins s)) = true.
Proof.
  intros Hins Ht.
  destruct (script_runs_keep (fun s => transcript s = Some t) not_download ins
              (fun inp s0 Hr Hc => script_run_keeps_transcript inp s0 t Hr Hc)
              s Hins Ht) as [Ht' Hev].
  split; [exact Ht'|].
  apply forallb_forall. intros e He.
  rewrite Forall_forall in Hev. unfold not_download in Hev.
  now rewrite (Hev e He).
Qed.

Lemma language_code_name (english : bool) :
  language_code (language_name english)
  = if english then lit "en" else lit "hi".
Proof. destruct english; reflexivity. Qed.

(** X22: the first run with a URL on a fresh session composes the stages in
    order: it downloads the transcript of that URL once, translates it once
    into 'en' when "English" is selected and into 'hi' otherwise, stores
    both texts and the slider value, makes no generation request while the
    button is not pressed, and renders no quiz. *)
Theorem first_run_stores_texts (inp : inputs) (s : app_state)
    (r : download_run) (t tt : str) (log : list str) :
  str_truthy (url_input inp) = true ->
  transcript s = None ->
  translated_transcript s = None ->
  list_truthy (questions (quiz s)) = false ->
  generate_button inp = false ->
  download_youtube_transcript transcript_truthy format_transcript
    list_transcripts (url_input inp) = Ok r ->
  returned r = Some t ->
  str_truthy t = true ->
  translate_text GoogleTranslator backend
    (if language_radio inp then lit "en" else lit "hi") t
  = (log, Ok tt) ->
  script_run transcript_truthy format_transcript list_transcripts
             GoogleTranslator backend predict inp s
  = mk_run (mk_app (language_name (language_radio inp)) (url_input inp)
                   (slider inp) (Some t) (Some tt) (quiz s))
           [Downloaded (url_input inp);
            Translated (if language_radio inp then lit "en" else lit "hi") log]
           (Completed None).
Proof.
  intros Hurl Ht Htt Hq Hg Hd Hr Hne Htr.
  rewrite <- language_code_name in *.
  unfold script_run. rewrite Hurl, Ht, Htt.
  unfold download_step. cbn [transcript video_url]. rewrite Hd, Hr, Hne.
  unfold and_then at 3. cbn [ended state_after events].
  unfold translate_step.
  cbn [transcript translated_transcript language video_url num_questions quiz].
  rewrite Htr.
  unfold and_then at 2. cbn [ended state_after events app].
  unfold generate_step.
  cbn [transcript translated_transcript language video_url num_questions quiz].
  rewrite Hg.
  unfold and_then. cbn [ended state_after events app].
  unfold quiz_step, render_run. cbn [quiz]. rewrite Hq.
  cbn [fst snd andb state_after events ended app language video_url
       num_questions transcript translated_transcript].
  reflexivity.
Qed.

End ScriptFacts.

(** A session whose only question has no correct-label: every submitted run
    is aborted inside the quiz. *)
Example submitted_run_aborted :
  ended (script_run (fun _ : str => true) (fun t => Ok t)
           (fun _ => Raise BackendError) supports_en_hi echo_backend
           (fun _ => Ok (lit "Q: a"))
           (mk_inputs false (lit "youtu.be/abc_DEF-123") 5 false
                      (mk_widgets (fun _ => None) true false))
           (mk_app (lit "English") [] 10 (Some (lit "text"))
                   (Some (lit "texte"))
                   (mk_session (Some [mcq_text_only]) (Some [PyStr []]) false)))
  = AbortedInQuiz KeyError.
Proof. vm_compute. reflexivity. Qed.

Lemma translation_is_cached_witness :
  transcript
    (fst (script_runs (fun _ : str => true) (fun t => Ok t)
            (fun _ => Raise BackendError) supports_en_hi echo_backend
            (fun _ => Ok (lit "Q: a"))
            [mk_inputs false (lit "youtu.be/abc_DEF-123") 5 false
                       (mk_widgets (fun _ => None) true false);
             mk_inputs true (lit "youtu.be/ZZZ_DEF-123") 7 true no_widgets]
            (mk_app (lit "English") [] 10 (Some (lit "text"))
                    (Some (lit "texte"))
                    (mk_session (Some [mcq_text_only]) (Some [PyStr []])
                                false))))
  = Some (lit "text")
  /\ translated_transcript
       (fst (script_runs (fun _ : str => true) (fun t => Ok t)
               (fun _ => Raise BackendError) supports_en_hi echo_backend
               (fun _ => Ok (lit "Q: a"))
               [mk_inputs false (lit "youtu.be/abc_DEF-123") 5 false
                          (mk_widgets (fun _ => None) true false);
                mk_inputs true (lit "youtu.be/ZZZ_DEF-123") 7 true no_widgets]
               (mk_app (lit "English") [] 10 (Some (lit "text"))
                       (Some (lit "texte"))
                       (mk_session (Some [mcq_text_only]) (Some [PyStr []])
                                   false))))
     = Some (lit "texte")
  /\ Forall (generation_from (lit "texte"))
       (snd (script_runs (fun _ : str => true) (fun t => Ok t)
               (fun _ => Raise BackendError) supports_en_hi echo_backend
               (fun _ => Ok (lit "Q: a"))
               [mk_inputs false (lit "youtu.be/abc_DEF-123") 5 false
                          (mk_widgets (fun _ => None) true false);
                mk_inputs true (lit "youtu.be/ZZZ_DEF-123") 7 true no_widgets]
               (mk_app (lit "English") [] 10 (Some (lit "text"))
                       (Some (lit "texte"))
                       (mk_session (Some [mcq_text_only]) (Some [PyStr []])
                                   false)))).
Proof.
  apply (@translation_is_cached str (fun _ : str => true) (fun t => Ok t)
           (fun _ => Raise BackendError) supports_en_hi echo_backend
           (fun _ => Ok (lit "Q: a"))
           [mk_inputs false (lit "youtu.be/abc_DEF-123") 5 false
                      (mk_widgets (fun _ => None) true false);
            mk_inputs true (lit "youtu.be/ZZZ_DEF-123") 7 true no_widgets]
           (mk_app (lit "English") [] 10 (Some (lit "text"))
                   (Some (lit "texte"))
                   (mk_session (Some [mcq_text_only]) (Some [PyStr []]) false))
           (lit "text") (lit "texte"));
    reflexivity.
Defined.

Lemma translation_failure_aborts_witness :
  script_run (fun _ : str => true) (fun t => Ok t)
    (fun _ => Raise BackendError) supports_en_hi
    (fun _ _ _ => Raise BackendError)
    (fun _ => Ok (lit "Q: a"))
    (mk_inputs false (lit "youtu.be/abc_DEF-123") 5 true no_widgets)
    (mk_app (lit "English") [] 10 (Some (lit "text")) None reset_state)
  = mk_run (mk_app (lit "Hindi") (lit "youtu.be/abc_DEF-123") 10
                   (Some (lit "text")) None reset_state)
           [Translated (lit "hi") [lit "text"]]
           (AbortedEarly BackendError).
Proof.
  apply (@translation_failure_aborts str (fun _ : str => true)
           (fun t => Ok t)
           (fun _ => Raise BackendError) supports_en_hi
           (fun _ _ _ => Raise BackendError)
           (fun _ => Ok (lit "Q: a"))
           (mk_inputs false (lit "youtu.be/abc_DEF-123") 5 true no_widgets)
           (mk_app (lit "English") [] 10 (Some (lit "text")) None reset_state)
           (lit "text") [lit "text"] BackendError); reflexivity.
Defined.

Lemma transcript_is_cached_witness :
  transcript
    (fst (script_runs (fun _ : str => true) (fun t => Ok t)
            (fun _ => Raise BackendError) supports_en_hi echo_backend
            (fun _ => Ok (lit "Q: a"))
            [mk_inputs false (lit "youtu.be/abc_DEF-123") 5 false
                       (mk_widgets (fun _ => None) true false);
             mk_inputs true (lit "youtu.be/ZZZ_DEF-123") 7 true no_widgets]
            (mk_app (lit "English") [] 10 (Some (lit "text")) None
                    (mk_session (Some [mcq_text_only]) (Some [PyStr []])
                                false))))
  = Some (lit "text")
  /\ forallb (fun e => negb (is_download e))
       (snd (script_runs (fun _ : str => true) (fun t => Ok t)
               (fun _ => Raise BackendError) supports_en_hi echo_backend
               (fun _ => Ok (lit "Q: a"))
               [mk_inputs false (lit "youtu.be/abc_DEF-123") 5 false
                          (mk_widgets (fun _ => None) true false);
                mk_inputs true (lit "youtu.be/ZZZ_DEF-123") 7 true no_widgets]
               (mk_app (lit "English") [] 10 (Some (lit "text")) None
                       (mk_session (Some [mcq_text_only]) (Some [PyStr []])
                                   false))))
     = true.
Proof.
  apply (@transcript_is_cached str (fun _ : str => true) (fun t => Ok t)
           (fun _ => Raise BackendError) supports_en_hi echo_backend
           (fun _ => Ok (lit "Q: a"))
           [mk_inputs false (lit "youtu.be/abc_DEF-123") 5 false
                      (mk_widgets (fun _ => None) true false);
            mk_inputs true (lit "youtu.be/ZZZ_DEF-123") 7 true no_widgets]
           (mk_app (lit "English") [] 10 (Some (lit "text")) None
                   (mk_session (Some [mcq_text_only]) (Some [PyStr []]) false))
           (lit "text"));
    reflexivity.
Defined.

Lemma first_run_stores_texts_witness :
  script_run (fun t : str => str_truthy t) (fun t => Ok t)
    (fun _ => Ok [Ok (lit "text")]) supports_en_hi echo_backend
    (fun _ => Ok (lit "Q: a"))
    (mk_inputs false (lit "youtu.be/abc_DEF-123") 7 false no_widgets)
    app_initial
  = mk_run (mk_app (lit "Hindi") (lit "youtu.be/abc_DEF-123") 7
                   (Some (lit "text")) (Some (lit "text")) reset_state)
           [Downloaded (lit "youtu.be/abc_DEF-123");
            Translated (lit "hi") [lit "text"]]
           (Completed None).
Proof.
  apply (@first_run_stores_texts str (fun t : str => str_truthy t)
           (fun t => Ok t) (fun _ => Ok [Ok (lit "text")]) supports_en_hi
           echo_backend
           (fun _ => Ok (lit "Q: a"))
           (mk_inputs false (lit "youtu.be/abc_DEF-123") 7 false no_widgets)
           app_initial
           (mk_download (Some (lit "text")) [] [lit "abc_DEF-123"] 1)
           (lit "text") (lit "text") [lit "text"]);
    reflexivity.
Defined.

Example decimal_twenty : decimal 20 = lit "20".
Proof. reflexivity. Qed.

Example prompt_lines :
  nth 1 (lines_of (prompt (lit "hello") 5)) []
  = lit "    Based on the following transcript, generate exactly 5 multiple-choice questions (MCQs) with 4 options each."
  /\ nth 12 (lines_of (prompt (lit "hello") 5)) [] = lit "    hello"
  /\ length (lines_of (prompt (lit "hello") 5)) = 14.
Proof. vm_compute. repeat split; reflexivity. Qed.
